(** * Memory game server: session engine and image normalizer

    A shallow embedding of [src/routes/game.py] and [src/crop_service.py].
    Python integers are [Z], Python lists are [list], the Flask session is a
    record with one optional field per key the code uses ([None] = the key is
    absent), and a request handler is a function from the state before the
    request to the state after it together with what the handler returned or
    raised. *)

From Stdlib Require Import ZArith String Ascii List Lia Permutation.
From stdpp Require Import base option list gmap strings fin_maps.
From stdpp Require Import sorting.

Local Open Scope string_scope.
Local Open Scope list_scope.
Local Open Scope Z_scope.

(** ** Python values and control flow *)

(** The exceptions that the modelled code can raise without catching. *)
Inductive exn : Type :=
  | KeyError (key : string)
  | ValueError (msg : string)
  | IndexError (msg : string)
  | OSError (msg : string).

(** [str(e)] *)
Definition str_exn (e : exn) : string :=
  match e with
  | KeyError key => "'" +:+ key +:+ "'"
  | ValueError msg => msg
  | IndexError msg => msg
  | OSError msg => msg
  end.

(** What a call produces: a returned value or an escaping exception. *)
Inductive outcome (A : Type) : Type :=
  | Returned (a : A)
  | Raised (e : exn).
Arguments Returned {A} a.
Arguments Raised {A} e.

(** A handler's HTTP answer: [jsonify(body)] with status 200,
    [jsonify({'error': msg}), status], [render_template(name, filename=...)]
    or [send_file(path)]. *)
Inductive response (A : Type) : Type :=
  | Json (body : A)
  | JsonError (error : string) (status : Z)
  | Template (name : string) (filename : option string)
  | SendFile (p : list string).
Arguments Json {A} body.
Arguments JsonError {A} error status.
Arguments Template {A} name filename.
Arguments SendFile {A} p.

(** [len(l)] as a Python integer. *)
Definition len {A} (l : list A) : Z := Z.of_nat (length l).

(** [l[i]] for a Python integer [i]: negative indices count from the end,
    anything outside [-len(l), len(l)) is an [IndexError] ([None]). *)
Definition py_index {A} (l : list A) (i : Z) : option A :=
  if 0 <=? i then l !! Z.to_nat i
  else if - len l <=? i then l !! Z.to_nat (len l + i)
  else None.

(** [x in l] for a list. *)
Definition py_in `{EqDecision A} (x : A) (l : list A) : bool :=
  bool_decide (x ∈ l).

(** [list(range(n))]. *)
Definition range (n : nat) : list Z := Z.of_nat <$> seq 0 n.

(** ** The random module

    The generator is a tape of raw draws and a read position; every sequence
    of outcomes of [randbelow] is produced by some tape. *)
Record rng : Type := Rng { tape : nat → nat; cursor : nat }.

Definition randbelow (n : nat) (g : rng) : nat * rng :=
  ((tape g (cursor g) mod n)%nat, Rng (tape g) (S (cursor g))).

(** [x[i], x[j] = x[j], x[i]] *)
Definition swap {A} (x : list A) (i j : nat) : list A :=
  match x !! i, x !! j with
  | Some a, Some b => <[j:=a]> (<[i:=b]> x)
  | _, _ => x
  end.

(** [random.shuffle(x)]:
    [for i in reversed(range(1, len(x))): j = randbelow(i + 1); swap]. *)
Fixpoint shuffle_from {A} (i : nat) (x : list A) (g : rng) : list A * rng :=
  match i with
  | O => (x, g)
  | S i' =>
      let '(j, g') := randbelow (S i) g in
      shuffle_from i' (swap x i j) g'
  end.

Definition shuffle {A} (x : list A) (g : rng) : list A * rng :=
  shuffle_from (length x - 1) x g.

(** [random.sample(population, k)], by CPython's pool loop (for a large
    population it draws indices until [k] distinct ones are found instead;
    nothing below depends on which):
    [for i in range(k): j = randbelow(n - i); result[i] = pool[j];
     pool[j] = pool[n - i - 1]]. *)
Fixpoint sample_pool {A} (k : nat) (pool : list A) (n : nat) (g : rng)
  : list A * rng :=
  match k with
  | O => ([], g)
  | S k' =>
      let '(j, g') := randbelow n g in
      match pool !! j, pool !! (n - 1)%nat with
      | Some a, Some b =>
          let '(rest, g'') := sample_pool k' (<[j:=b]> pool) (n - 1) g' in
          (a :: rest, g'')
      | _, _ => ([], g')
      end
  end.

(** [random.sample] raises [ValueError] unless [0 <= k <= len(population)]. *)
Definition sample {A} (population : list A) (k : Z) (g : rng)
  : outcome (list A) * rng :=
  if (0 <=? k) && (k <=? len population) then
    let '(r, g') := sample_pool (Z.to_nat k) population (length population) g in
    (Returned r, g')
  else (Raised (ValueError "Sample larger than population or is negative"), g).

(** ** The session *)

(** Flask's [session] for one browser: the seven keys the handlers use. *)
Record session : Type := Session {
  all_game_images : option (list string);
  pending_crops : option (list string);
  cards : option (list Z);
  matched : option (list Z);
  current_player : option Z;
  player1_matches : option (list Z);
  player2_matches : option (list Z)
}.

(** [session.clear()] *)
Definition cleared : session := Session None None None None None None None.

(** [session.get(key, dflt)] *)
Definition session_get {A} (field : option A) (dflt : A) : A := default dflt field.

(** [get_card_image(card_value)] *)
Definition get_card_image (s : session) (card_value : Z) : option string :=
  let images := session_get (all_game_images s) [] in
  if (0 <=? card_value) && (card_value <? len images)
  then images !! Z.to_nat card_value
  else None.

(** [setup_card_pairs()] *)
Definition setup_card_pairs (s : session) (g : rng) : session * rng :=
  let images := session_get (all_game_images s) [] in
  let pairs := range (length images) ++ range (length images) in
  let '(pairs, g') := shuffle pairs g in
  (Session (all_game_images s) (pending_crops s) (Some pairs) (Some [])
     (current_player s) (player1_matches s) (player2_matches s), g').

(** The body of a successful [check_match] answer. *)
Record check_body : Type := CheckBody {
  resp_is_match : bool;
  resp_image1 : option string;
  resp_image2 : option string;
  resp_current_player : Z;
  resp_player1_pairs : Z;
  resp_player2_pairs : Z;
  resp_matched_indices : list Z;
  resp_game_over : bool
}.

(** [check_match(card1, card2)] *)
Definition check_match (s : session) (card1 card2 : Z)
  : session * outcome (response check_body) :=
  let cards_ := session_get (cards s) [] in
  let matched_ := session_get (matched s) [] in
  let player1_matches_ := session_get (player1_matches s) [] in
  let player2_matches_ := session_get (player2_matches s) [] in
  let current_player_ := session_get (current_player s) 1 in
  if (card1 >=? len cards_) || (card2 >=? len cards_)
     || (card1 <? 0) || (card2 <? 0)
  then (s, Returned (JsonError "Invalid card index" 400))
  else if py_in card1 matched_ || py_in card2 matched_
  then (s, Returned (JsonError "Card already matched" 400))
  else
    match py_index cards_ card1, py_index cards_ card2 with
    | Some card1_val, Some card2_val =>
        let is_match := card1_val =? card2_val in
        let img1 := get_card_image s card1_val in
        let img2 := get_card_image s card2_val in
        let '(matched', p1', p2', current_player', game_over) :=
          if is_match then
            let matched' := matched_ ++ [card1; card2] in
            let '(p1', p2') :=
              if current_player_ =? 1
              then (player1_matches_ ++ [card1_val], player2_matches_)
              else (player1_matches_, player2_matches_ ++ [card1_val]) in
            (matched', p1', p2', current_player_, len matched' =? len cards_)
          else
            (matched_, player1_matches_, player2_matches_,
             (if current_player_ =? 1 then 2 else 1), false) in
        (Session (all_game_images s) (pending_crops s) (cards s)
           (Some matched') (Some current_player') (Some p1') (Some p2'),
         Returned (Json (CheckBody is_match img1 img2 current_player'
                           (len p1') (len p2') matched' game_over)))
    | _, _ => (s, Raised (IndexError "list index out of range"))
    end.

(** ** Strings and paths *)

(** [s.rfind(c)]: index of the last [c], [None] for Python's [-1]. *)
Fixpoint rfind (c : ascii) (s : string) : option nat :=
  match s with
  | EmptyString => None
  | String a s' =>
      match rfind c s' with
      | Some i => Some (S i)
      | None => if Ascii.eqb a c then Some O else None
      end
  end.

(** [base.rsplit('.', 1)[0] if '.' in base else base] *)
Definition name_without_ext (base_filename : string) : string :=
  match rfind "." base_filename with
  | Some i => String.substring 0 i base_filename
  | None => base_filename
  end.

(** [s.lower()] on ASCII letters. *)
Definition lower_ascii (a : ascii) : ascii :=
  let n := nat_of_ascii a in
  if (65 <=? n)%nat && (n <=? 90)%nat then ascii_of_nat (n + 32) else a.

Fixpoint lower (s : string) : string :=
  match s with
  | EmptyString => EmptyString
  | String a s' => String (lower_ascii a) (lower s')
  end.

(** [s.split(c)] *)
Fixpoint split_on (c : ascii) (s : string) : list string :=
  match s with
  | EmptyString => [""]
  | String a s' =>
      if Ascii.eqb a c then "" :: split_on c s'
      else match split_on c s' with
           | h :: t => String a h :: t
           | [] => [String a ""]
           end
  end.

(** A [pathlib.Path] on POSIX: the components of an absolute path. *)
Abbreviation path := (list string).

(** The components pathlib keeps of a string: empty ones and [.] are
    dropped, [..] stays. *)
Definition components (s : string) : path :=
  filter (λ c, c ≠ "" ∧ c ≠ ".") (split_on "/" s).

(** [base / s]: an absolute [s] replaces [base]. *)
Definition joinpath (base : path) (s : string) : path :=
  if String.prefix "/" s then components s else base ++ components s.

(** [p.parent] (the root is its own parent). *)
Definition parent (p : path) : path := removelast p.

(** [p.name] *)
Definition name (p : path) : string := default "" (last p).

(** [p.suffix]: from the last dot of the name, when that dot is neither
    the first nor the last character. *)
Definition suffix (p : path) : string :=
  let n := name p in
  match rfind "." n with
  | Some i =>
      if (0 <? i)%nat && (i <? String.length n - 1)%nat
      then String.substring i (String.length n - i) n else ""
  | None => ""
  end.

(** [p.stem] *)
Definition stem (p : path) : string :=
  let n := name p in
  match rfind "." n with
  | Some i =>
      if (0 <? i)%nat && (i <? String.length n - 1)%nat
      then String.substring 0 i n else n
  | None => n
  end.

(** [p.as_posix()] *)
Definition as_posix (p : path) : string :=
  match p with
  | [] => "/"
  | _ => String.concat "" ((λ c, "/" +:+ c) <$> p)
  end.


(** [d] is, or lies below, a directory next to [root] whose name begins
    with the name of [root] and goes on, as [/app/img_old] next to
    [/app/img]. *)
Fixpoint beside (root d : path) : bool :=
  match root, d with
  | [l], c :: _ => bool_decide (c ≠ l) && String.prefix l c
  | l :: root', c :: d' => bool_decide (c = l) && beside root' d'
  | _, _ => false
  end.

(** ** Files, images and the platform *)

Abbreviation bytes := (list Z).

(** A decoded picture, after the EXIF transposition. *)
Record image : Type := Image { width : Z; height : Z; pixels : bytes }.

Inductive node : Type :=
  | Dir
  | File (content : bytes).

(** What the code takes from its surroundings: where the image directory
    is ([game.py] and [crop_service.py] compute the same [img] directory
    next to [src]), how the operating system canonicalises a path, the
    board size of [Config], and the Pillow calls ([None] when the call
    raises; [image_save_jpeg] is the JPEG encoder alone). *)
Class Platform : Type := {
  img_dir : path;
  resolve : path → path;
  BOARD_WIDTH : Z;
  BOARD_HEIGHT : Z;
  image_open : bytes → option image;
  image_crop : image → Z → Z → Z → Z → option image;
  image_save_jpeg : image → option bytes
}.

Section FileSystem.
Context `{Platform}.

(** The disk: canonical path to directory or regular file. *)
Implicit Types fs : gmap path node.

(** The directories named on the way to [p] as it is written: its proper
    prefixes, the root apart. *)
Definition ancestors (p : path) : list path :=
  (λ n, take n p) <$> seq 1 (length p - 1).

(** The operating system follows [p] component by component: every
    directory named on the way has to be one, also where a later [..]
    leaves it again. *)
Definition walkable fs (p : path) : bool :=
  forallb (λ q, match fs !! resolve q with Some Dir => true | _ => false end)
    (ancestors p).

(** [os.stat(p)]: what is at [p]; [None] when the walk stops on the way
    or nothing is there. *)
Definition stat fs (p : path) : option node :=
  if walkable fs p then fs !! resolve p else None.

(** [p.exists()] *)
Definition path_exists fs (p : path) : bool := bool_decide (is_Some (stat fs p)).

(** [p.is_file()] *)
Definition is_file fs (p : path) : bool :=
  match stat fs p with Some (File _) => true | _ => false end.

(** [p.is_dir()] *)
Definition is_dir fs (p : path) : bool :=
  match stat fs p with Some Dir => true | _ => false end.

(** Reading the bytes of a regular file. *)
Definition read_file fs (p : path) : option bytes :=
  match stat fs p with Some (File b) => Some b | _ => None end.

(** [d.iterdir()]: the entries of directory [d]; it raises when [d] is
    not a directory. *)
Definition iterdir fs (d : path) : outcome (list path) :=
  match stat fs d with
  | Some Dir =>
      Returned ((λ e, d ++ [name e.1]) <$>
        filter (λ e, e.1 ≠ [] ∧ parent e.1 = resolve d) (map_to_list fs))
  | Some (File _) => Raised (OSError "Not a directory")
  | None => Raised (OSError "No such file or directory")
  end.

(** [d.mkdir(exist_ok=True)]: [None] when it raises. *)
Definition mkdir_exist_ok fs (d : path) : option (gmap path node) :=
  if walkable fs d then
    match fs !! resolve d with
    | Some Dir => Some fs
    | Some (File _) => None
    | None =>
        match fs !! parent (resolve d) with
        | Some Dir => Some (<[resolve d := Dir]> fs)
        | _ => None
        end
    end
  else None.

(** Creating or replacing the regular file at [p], [open(p, 'wb')] and
    the writes after it; [None] when the operating system refuses. *)
Definition write_file fs (p : path) (b : bytes) : option (gmap path node) :=
  if walkable fs p then
    match fs !! resolve p, fs !! parent (resolve p) with
    | Some Dir, _ => None
    | _, Some Dir => Some (<[resolve p := File b]> fs)
    | _, _ => None
    end
  else None.

(** [shutil.copy2(src, dst)]: a directory [dst] stands for the file of
    [src]'s name inside it; copying a file onto itself raises. The source
    is opened before the target, so a copy that raises has written
    nothing. *)
Definition copy2 fs (src dst : path) : option (gmap path node) :=
  let dst := if is_dir fs dst then joinpath dst (name src) else dst in
  if bool_decide (resolve src = resolve dst) then None
  else b ← read_file fs src; write_file fs dst b.

(** [img.save(p, 'JPEG', quality=95)]: whether it returned, and the disk
    afterwards. Pillow opens [p] for writing, which empties a file already
    there, and only then encodes: when the encoder raises, a file that
    was there before stays behind empty, and one the call created is
    removed again. *)
Definition image_save fs (img : image) (p : path) : bool * gmap path node :=
  match write_file fs p [] with
  | None => (false, fs)
  | Some opened =>
      match image_save_jpeg img with
      | Some b => (true, <[resolve p := File b]> opened)
      | None => (false, if path_exists fs p then opened else fs)
      end
  end.

(** *** crop_service.py *)

(** [_load_and_rotate(img_path)] *)
Definition _load_and_rotate fs (img_path : path) : option image :=
  b ← read_file fs img_path; image_open b.

(** [get_safe_image_path(filename)] *)
Definition get_safe_image_path fs (filename : string) : option path :=
  let file_path := joinpath img_dir filename in
  if bool_decide (parent (resolve file_path) ≠ resolve img_dir) then None
  else if path_exists fs file_path then Some file_path else None.

(** [get_image_dimensions(filename)]: the pair is [(width, height)]. *)
Definition get_image_dimensions fs (filename : string) : option (Z * Z) :=
  match get_safe_image_path fs filename with
  | None => None
  | Some img_path =>
      match _load_and_rotate fs img_path with
      | None => None
      | Some img => Some (width img, height img)
      end
  end.

(** [is_square_image(filename)] *)
Definition is_square_image fs (filename : string) : bool :=
  match get_image_dimensions fs filename with
  | None => false
  | Some (w, h) => w =? h
  end.

(** [copy_square_image(filename)]: the returned name and the disk
    afterwards. Every failure inside the [try] gives [None]; what was
    done before the failure stays: the directory made, the target that
    [img.save] had opened. *)
Definition copy_square_image fs (filename : string)
  : option string * gmap path node :=
  match get_safe_image_path fs filename with
  | None => (None, fs)
  | Some img_path =>
      let name_without_ext := stem img_path in
      let square_filename := name_without_ext +:+ "_square.jpg" in
      let img_dir := parent img_path in
      let squared_dir := joinpath img_dir "squared" in
      match mkdir_exist_ok fs squared_dir with
      | None => (None, fs)
      | Some fs1 =>
          let square_path := joinpath squared_dir square_filename in
          if bool_decide (lower (suffix img_path) ∈ [".jpg"; ".jpeg"]) then
            match copy2 fs1 img_path square_path with
            | Some fs2 => (Some square_filename, fs2)
            | None => (None, fs1)
            end
          else
            match _load_and_rotate fs1 img_path with
            | None => (None, fs1)
            | Some img =>
                match image_save fs1 img square_path with
                | (true, fs2) => (Some square_filename, fs2)
                | (false, fs2) => (None, fs2)
                end
            end
      end
  end.

(** [save_cropped_image(filename, crop_box)] *)
Definition save_cropped_image fs (filename : string) (crop_box : gmap string Z)
  : option string * gmap path node :=
  match get_safe_image_path fs filename with
  | None => (None, fs)
  | Some img_path =>
      match _load_and_rotate fs img_path with
      | None => (None, fs)
      | Some img =>
          match crop_box !! "x", crop_box !! "y", crop_box !! "size" with
          | Some x, Some y, Some size =>
              match image_crop img x y (x + size) (y + size) with
              | None => (None, fs)
              | Some cropped =>
                  let name_without_ext := stem img_path in
                  let square_filename := name_without_ext +:+ "_square.jpg" in
                  let img_dir := parent img_path in
                  let squared_dir := joinpath img_dir "squared" in
                  match mkdir_exist_ok fs squared_dir with
                  | None => (None, fs)
                  | Some fs1 =>
                      let square_path := joinpath squared_dir square_filename in
                      match image_save fs1 cropped square_path with
                      | (true, fs2) => (Some square_filename, fs2)
                      | (false, fs2) => (None, fs2)
                      end
                  end
              end
          | _, _, _ => (None, fs)
          end
      end
  end.

(** [get_largest_square_dimensions(filename)]: [(size, x, y)]. *)
Definition get_largest_square_dimensions fs (filename : string)
  : option (Z * Z * Z) :=
  match get_image_dimensions fs filename with
  | None => None
  | Some (w, h) =>
      let size := Z.min w h in
      Some (size, (w - size) / 2, (h - size) / 2)
  end.

End FileSystem.

(** ** routes/game.py *)

(** Everything a request can read or change: the caller's session, the
    disk and the random generator. *)
Record world : Type := World {
  sess : session;
  disk : gmap path node;
  gen : rng
}.

(** The JSON bodies of the handlers other than [check_match]. *)
Inductive crop_body : Type :=
  | CropPending (next_image : string)
  | CropOk.

Inductive init_body : Type :=
  | InitPending (pending_image : string) (total_pending : Z)
  | InitOk (board_width board_height : Z) (images : list string)
      (total_pairs : Z).

Record board_body : Type := BoardBody {
  board_cards : list Z;
  board_matched : list Z;
  board_current_player : Z;
  board_player1_pairs : Z;
  board_player2_pairs : Z;
  board_images : list string
}.

Inductive status_body : Type := StatusOk.

(** [l.remove(x)]: the first occurrence goes; [None] is the [ValueError]. *)
Fixpoint py_remove `{EqDecision A} (x : A) (l : list A) : option (list A) :=
  match l with
  | [] => None
  | y :: t => if decide (x = y) then Some t else (y ::.) <$> py_remove x t
  end.

Section Game.
Context `{Platform}.

Implicit Types fs : gmap path node.

Definition img_extensions : list string :=
  [".png"; ".jpg"; ".jpeg"; ".gif"; ".webp"].

(** [_get_image_files()] *)
Definition _get_image_files fs : outcome (list path) :=
  if negb (path_exists fs img_dir) then Returned []
  else
    match iterdir fs img_dir with
    | Raised e => Raised e
    | Returned entries =>
        Returned (filter (λ f, is_file fs f = true
                               ∧ lower (suffix f) ∈ img_extensions) entries)
    end.

(** [_get_k_random_images(k)] *)
Definition _get_k_random_images fs (k : Z) (g : rng)
  : outcome (list string) * rng :=
  match _get_image_files fs with
  | Raised e => (Raised e, g)
  | Returned files =>
      if len files <=? k then (Returned (name <$> files), g)
      else
        match sample files k g with
        | (Returned selected_paths, g') => (Returned (name <$> selected_paths), g')
        | (Raised e, g') => (Raised e, g')
        end
  end.

(** [_get_cropped_version_path(base_filename)] *)
Definition _get_cropped_version_path (base_filename : string) : path :=
  let squared_dir := joinpath img_dir "squared" in
  joinpath squared_dir (name_without_ext base_filename +:+ "_square.jpg").

(** [_has_cropped_version(base_filename)] *)
Definition _has_cropped_version fs (base_filename : string) : bool :=
  path_exists fs (_get_cropped_version_path base_filename).

(** [_get_display_filename(base_filename)] *)
Definition _get_display_filename fs (base_filename : string) : string :=
  if _has_cropped_version fs base_filename
  then "squared/" +:+ name_without_ext base_filename +:+ "_square.jpg"
  else base_filename.


(** The [for img in selected_base] loop of [init_game_state]: the pending
    list it builds and the disk it leaves. *)
Fixpoint scan_selected fs (selected_base pending_crops : list string)
  : list string * gmap path node :=
  match selected_base with
  | [] => (pending_crops, fs)
  | img :: rest =>
      if negb (_has_cropped_version fs img) then
        if is_square_image fs img
        then scan_selected (copy_square_image fs img).2 rest pending_crops
        else scan_selected fs rest (pending_crops ++ [img])
      else scan_selected fs rest pending_crops
  end.

(** [init_game_state()] *)
Definition init_game_state (w : world) : world * outcome () :=
  let k := (BOARD_WIDTH * BOARD_HEIGHT) / 2 in
  match _get_k_random_images (disk w) k (gen w) with
  | (Raised e, g) => (World (sess w) (disk w) g, Raised e)
  | (Returned selected_base, g) =>
      let '(pending, fs) := scan_selected (disk w) selected_base [] in
      (World (Session (Some selected_base) (Some pending) (Some []) (Some [])
                (Some 1) (Some []) (Some [])) fs g,
       Returned ())
  end.

(** [setup_card_pairs()] on the world. *)
Definition deal (w : world) : world :=
  let '(s, g) := setup_card_pairs (sess w) (gen w) in World s (disk w) g.

(** [index()] *)
Definition index (w : world) : world * outcome (response ()) :=
  match cards (sess w) with
  | None =>
      match init_game_state w with
      | (w', Raised e) => (w', Raised e)
      | (w', Returned _) => (w', Returned (Template "game.html" None))
      end
  | Some _ => (w, Returned (Template "game.html" None))
  end.


(** [send_file(str(p), ...)]: it opens [p], which raises for a directory
    and for a path that is not there. *)
Definition send_file fs (p : path) : outcome (response ()) :=
  match stat fs p with
  | Some (File _) => Returned (SendFile p)
  | Some Dir => Raised (OSError "Is a directory")
  | None => Raised (OSError "No such file or directory")
  end.

(** [serve_image(filepath)] *)
Definition serve_image (w : world) (filepath : string) : outcome (response ()) :=
  let fs := disk w in
  let cropped_path := _get_cropped_version_path filepath in
  if path_exists fs cropped_path then
    if negb (String.prefix (as_posix (resolve img_dir))
               (as_posix (parent (resolve cropped_path))))
    then Returned (JsonError "Invalid path" 404)
    else send_file fs cropped_path
  else
    let file_path := joinpath img_dir filepath in
    if negb (String.prefix (as_posix (resolve img_dir))
               (as_posix (parent (resolve file_path))))
    then Returned (JsonError "Invalid path" 404)
    else if negb (path_exists fs file_path)
    then Returned (JsonError "Image not found" 404)
    else send_file fs file_path.


(** [save_crop()], on the parsed request body [{filename, crop_box}]. *)
Definition save_crop (w : world) (filename : option string)
    (crop_box : option (gmap string Z))
  : world * outcome (response crop_body) :=
  match filename, crop_box with
  | Some filename, Some crop_box =>
      if bool_decide (filename = "") || bool_decide (crop_box = ∅)
      then (w, Returned (JsonError "Missing data" 400))
      else
        match get_safe_image_path (disk w) filename with
        | None => (w, Returned (JsonError "Image not found" 404))
        | Some _ =>
            let '(temp_filename, fs) :=
              save_cropped_image (disk w) filename crop_box in
            let w1 := World (sess w) fs (gen w) in
            if bool_decide (temp_filename = None ∨ temp_filename = Some "")
            then (w1, Returned (JsonError "Crop failed" 400))
            else
              match pending_crops (sess w) with
              | None => (w1, Raised (KeyError "pending_crops"))
              | Some l =>
                  match py_remove filename l with
                  | None =>
                      (w1, Raised (ValueError "list.remove(x): x not in list"))
                  | Some pending =>
                      let s := sess w in
                      let w2 :=
                        World (Session (all_game_images s) (Some pending)
                                 (cards s) (matched s) (current_player s)
                                 (player1_matches s) (player2_matches s))
                          fs (gen w) in
                      match pending with
                      | next_image :: _ =>
                          (w2, Returned (Json (CropPending next_image)))
                      | [] => (deal w2, Returned (Json CropOk))
                      end
                  end
              end
        end
  | _, _ => (w, Returned (JsonError "Missing data" 400))
  end.

(** [init()] *)
Definition init (w : world) : world * outcome (response init_body) :=
  let started :=
    match all_game_images (sess w) with
    | None => init_game_state w
    | Some _ =>
        let s := sess w in
        (World (Session (all_game_images s) (pending_crops s) (Some [])
                  (Some []) (Some 1) (Some []) (Some []))
           (disk w) (gen w),
         Returned ())
    end in
  match started with
  | (w1, Raised e) => (w1, Raised e)
  | (w1, Returned _) =>
      match session_get (pending_crops (sess w1)) [] with
      | pending_image :: rest =>
          (w1, Returned (Json (InitPending pending_image
                                 (len (pending_image :: rest)))))
      | [] =>
          let w2 := deal w1 in
          let images := session_get (all_game_images (sess w2)) [] in
          (w2, Returned (Json (InitOk BOARD_WIDTH BOARD_HEIGHT images
                                 (len images))))
      end
  end.

(** The part of [get_board()] inside its [try]. *)
Definition get_board_try (w : world) : world * outcome (response board_body) :=
  let started :=
    match all_game_images (sess w) with
    | None => init_game_state w
    | Some _ => (w, Returned ())
    end in
  match started with
  | (w1, Raised e) => (w1, Raised e)
  | (w1, Returned _) =>
      let w2 :=
        match session_get (cards (sess w1)) [] with
        | [] => deal w1
        | _ :: _ => w1
        end in
      let s := sess w2 in
      match session_get (all_game_images s) [] with
      | [] => (w2, Returned (JsonError "No images in session" 400))
      | _ :: _ =>
          match session_get (cards s) [] with
          | [] => (w2, Returned (JsonError "No cards in session" 400))
          | _ :: _ =>
              match cards s, matched s, current_player s,
                    player1_matches s, player2_matches s with
              | None, _, _, _, _ => (w2, Raised (KeyError "cards"))
              | _, None, _, _, _ => (w2, Raised (KeyError "matched"))
              | _, _, None, _, _ => (w2, Raised (KeyError "current_player"))
              | _, _, _, None, _ => (w2, Raised (KeyError "player1_matches"))
              | _, _, _, _, None => (w2, Raised (KeyError "player2_matches"))
              | Some c, Some m, Some p, Some p1, Some p2 =>
                  (w2, Returned (Json (BoardBody c m p (len p1) (len p2)
                                         (session_get (all_game_images s) []))))
              end
          end
      end
  end.

(** [get_board()]: [except Exception as e] answers 500 with [str(e)]. *)
Definition get_board (w : world) : world * outcome (response board_body) :=
  match get_board_try w with
  | (w', Raised e) => (w', Returned (JsonError (str_exn e) 500))
  | r => r
  end.

(** [check_match(card1, card2)] on the world. *)
Definition check (w : world) (card1 card2 : Z)
  : world * outcome (response check_body) :=
  let '(s, r) := check_match (sess w) card1 card2 in
  (World s (disk w) (gen w), r).

(** [reset()] *)
Definition reset (w : world) : world * outcome (response status_body) :=
  (World cleared (disk w) (gen w), Returned (Json StatusOk)).

(** The requests that reach the session, and the world after each. *)
Inductive request : Type :=
  | GetIndex
  | PostCrop (filename : option string) (crop_box : option (gmap string Z))
  | PostInit
  | GetBoard
  | PostCheck (card1 card2 : Z)
  | PostReset.

Definition handle (w : world) (r : request) : world :=
  match r with
  | GetIndex => (index w).1
  | PostCrop filename crop_box => (save_crop w filename crop_box).1
  | PostInit => (init w).1
  | GetBoard => (get_board w).1
  | PostCheck card1 card2 => (check w card1 card2).1
  | PostReset => (reset w).1
  end.

(** The worlds a browser can bring about, starting without a session. *)
Inductive reachable : world → Prop :=
  | reachable_start fs g : reachable (World cleared fs g)
  | reachable_step w r : reachable w → reachable (handle w r).

End Game.

(** ** A platform for the examples

    No symbolic links: [resolve] only removes [..] lexically. A file's
    bytes are its width, its height and its pixels. *)

Fixpoint resolve_lexical (done todo : path) : path :=
  match todo with
  | [] => done
  | c :: rest =>
      if bool_decide (c = "..") then resolve_lexical (removelast done) rest
      else resolve_lexical (done ++ [c]) rest
  end.

Definition demo_open (b : bytes) : option image :=
  match b with
  | w :: h :: px => if (0 <? w) && (0 <? h) then Some (Image w h px) else None
  | _ => None
  end.

Definition demo_crop (img : image) (left top right bottom : Z) : option image :=
  if (left <? right) && (top <? bottom)
  then Some (Image (right - left) (bottom - top) (pixels img))
  else None.

Definition demo_save_jpeg (img : image) : option bytes :=
  Some (width img :: height img :: pixels img).

Definition demo_platform : Platform :=
  {| img_dir := ["app"; "img"];
     resolve := resolve_lexical [];
     BOARD_WIDTH := 2;
     BOARD_HEIGHT := 2;
     image_open := demo_open;
     image_crop := demo_crop;
     image_save_jpeg := demo_save_jpeg |}.

(** The same platform with an encoder that refuses every picture, as
    Pillow's JPEG encoder refuses one with an alpha channel. *)
Definition refusing_platform : Platform :=
  {| img_dir := ["app"; "img"];
     resolve := resolve_lexical [];
     BOARD_WIDTH := 2;
     BOARD_HEIGHT := 2;
     image_open := demo_open;
     image_crop := demo_crop;
     image_save_jpeg := λ _, None |}.

(** [/app/img] holding a square [a.jpg] and a 4x2 [b.png]. *)
Definition demo_disk : gmap path node :=
  <[ ["app"; "img"; "b.png"] := File [4; 2; 7] ]>
  (<[ ["app"; "img"; "a.jpg"] := File [2; 2; 5] ]>
  (<[ ["app"; "img"] := Dir ]>
  (<[ ["app"] := Dir ]> ∅))).

Definition zero_rng : rng := Rng (λ _, O) O.

(** A session whose two images are selected and nothing is pending. *)
Definition selected_session : session :=
  Session (Some ["a.jpg"; "b.png"]) (Some []) (Some []) (Some [])
    (Some 1) (Some []) (Some []).

(** Its board after [setup_card_pairs]. *)
Definition dealt_session : session := (setup_card_pairs selected_session zero_rng).1.

(** A run of [check_match] calls; every answer is dropped. *)
Definition run_checks (s : session) (moves : list (Z * Z)) : session :=
  foldl (λ s m, (check_match s m.1 m.2).1) s moves.

(** The square crop submitted for [b.png]. *)
Definition demo_box : gmap string Z := <["size" := 2]> (<["y" := 0]> (<["x" := 1]> ∅)).

(** The world after the first [init] on [demo_disk]. *)
Definition started_world : world :=
  (@init demo_platform (World cleared demo_disk zero_rng)).1.

(** The world after the crop of [b.png] is submitted: the board is dealt. *)
Definition cropped_world : world :=
  (@save_crop demo_platform started_world (Some "b.png") (Some demo_box)).1.

(** What holds of the session in every reachable world: no key at all, or
    all seven keys with a player 1 or 2 to move. *)
Definition session_shape (s : session) : Prop :=
  s = cleared ∨
  (is_Some (all_game_images s) ∧ is_Some (pending_crops s) ∧
   is_Some (cards s) ∧ is_Some (matched s) ∧
   (current_player s = Some 1 ∨ current_player s = Some 2) ∧
   is_Some (player1_matches s) ∧ is_Some (player2_matches s)).

(** The positions in [matched] are distinct positions of the board. *)
Definition matched_set (s : session) : Prop :=
  let cs := session_get (cards s) [] in
  let ms := session_get (matched s) [] in
  NoDup ms ∧ ∀ p, p ∈ ms → 0 ≤ p < len cs.

(** [matched] read two positions at a time: each pair names two cards of
    one value. *)
Fixpoint confirmed_pairs (cs ms : list Z) : Prop :=
  match ms with
  | [] => True
  | a :: b :: rest =>
      (∃ v, cs !! Z.to_nat a = Some v ∧ cs !! Z.to_nat b = Some v)
      ∧ confirmed_pairs cs rest
  | [_] => False
  end.

(** Every pair in [matched] is credited to one of the two players. *)
Definition pairs_counted (s : session) : Prop :=
  2 * (len (session_get (player1_matches s) [])
       + len (session_get (player2_matches s) []))
  = len (session_get (matched s) []).

(** What every reachable session satisfies besides its shape: [cards] is
    empty or the pairs of the selected images in some order; the selected
    names are distinct and the pending ones are among them, in their
    order; [matched] holds an even number of positions of the board; the
    values credited to the players are indices of selected images. *)
Definition session_inv (s : session) : Prop :=
  let images := session_get (all_game_images s) [] in
  let cs := session_get (cards s) [] in
  (cs = [] ∨ cs ≡ₚ range (length images) ++ range (length images)) ∧
  NoDup images ∧
  session_get (pending_crops s) [] `sublist_of` images ∧
  (∀ p, p ∈ session_get (matched s) [] → 0 ≤ p < len cs) ∧
  Nat.Even (length (session_get (matched s) [])) ∧
  (∀ v, v ∈ session_get (player1_matches s) []
            ++ session_get (player2_matches s) [] →
        0 ≤ v < len images).

(** [a <= b] on Python strings: by character codes, a proper prefix
    first. *)
Definition str_le (a b : string) : Prop := String.leb a b = true.

#[global] Instance str_le_dec : RelDecision str_le :=
  λ a b, decide (String.leb a b = true).

(** [sorted(l)] on strings. *)
Definition sorted (l : list string) : list string := merge_sort str_le l.

Section Listing.
Context `{Platform}.

(** [get_all_images()] *)
Definition get_all_images (fs : gmap path node) : outcome (list string) :=
  match _get_image_files fs with
  | Raised e => Raised e
  | Returned files => Returned (sorted (name <$> files))
  end.

End Listing.

(** Nothing is lost between two disks: what was there is there, and a
    directory is still a directory. *)
Definition disk_grows (fs fs' : gmap path node) : Prop :=
  ∀ k, (is_Some (fs !! k) → is_Some (fs' !! k))
       ∧ (fs !! k = Some Dir → fs' !! k = Some Dir).

(** * Properties *)

(** ** Python helpers *)

Lemma py_index_in_range {A} (l : list A) (i : Z) :
  0 ≤ i < len l → py_index l i = l !! Z.to_nat i ∧ is_Some (l !! Z.to_nat i).
Proof.
  intros Hi. unfold py_index.
  destruct (Z.leb_spec 0 i); [|lia]. split; [done|].
  apply lookup_lt_is_Some. unfold len in Hi. lia.
Qed.

Lemma index_guard_false {A} (l : list A) (a b : Z) :
  0 ≤ a < len l → 0 ≤ b < len l →
  (a >=? len l) || (b >=? len l) || (a <? 0) || (b <? 0) = false.
Proof.
  intros Ha Hb. rewrite !Z.geb_leb.
  destruct (Z.leb_spec (len l) a), (Z.leb_spec (len l) b),
    (Z.ltb_spec a 0), (Z.ltb_spec b 0); simpl; lia || done.
Qed.

Lemma index_guard_true {A} (l : list A) (a b : Z) :
  ¬ (0 ≤ a < len l ∧ 0 ≤ b < len l) →
  (a >=? len l) || (b >=? len l) || (a <? 0) || (b <? 0) = true.
Proof.
  intros Hn. rewrite !Z.geb_leb.
  destruct (Z.leb_spec (len l) a), (Z.leb_spec (len l) b),
    (Z.ltb_spec a 0), (Z.ltb_spec b 0); simpl; try done. lia.
Qed.

Lemma py_in_false `{EqDecision A} (x : A) (l : list A) :
  x ∉ l → py_in x l = false.
Proof. intros. by apply bool_decide_eq_false_2. Qed.

Lemma len_app {A} (l k : list A) : len (l ++ k) = len l + len k.
Proof. unfold len. rewrite length_app. lia. Qed.

(** ** Strings and paths on examples *)

Example name_without_ext_examples :
  name_without_ext "photo.jpg" = "photo" ∧
  name_without_ext "a.b.png" = "a.b" ∧
  name_without_ext "noext" = "noext" ∧
  name_without_ext ".png" = "".
Proof. repeat split. Qed.

Example stem_suffix_examples :
  stem ["img"; "photo.JPG"] = "photo" ∧
  suffix ["img"; "photo.JPG"] = ".JPG" ∧
  lower (suffix ["img"; "photo.JPG"]) = ".jpg" ∧
  stem ["img"; "a.b.png"] = "a.b" ∧ suffix ["img"; "a.b.png"] = ".png" ∧
  stem ["img"; ".png"] = ".png" ∧ suffix ["img"; ".png"] = "" ∧
  suffix ["img"; "x."] = "".
Proof. repeat split. Qed.

Example joinpath_examples :
  joinpath ["app"; "img"] "a.jpg" = ["app"; "img"; "a.jpg"] ∧
  joinpath ["app"; "img"] "sub//./x.jpg" = ["app"; "img"; "sub"; "x.jpg"] ∧
  joinpath ["app"; "img"] "../../etc/passwd"
    = ["app"; "img"; ".."; ".."; "etc"; "passwd"] ∧
  joinpath ["app"; "img"] "/etc/passwd" = ["etc"; "passwd"] ∧
  resolve_lexical [] ["app"; "img"; ".."; ".."; "etc"; "passwd"]
    = ["etc"; "passwd"] ∧
  as_posix ["app"; "img"; "squared"] = "/app/img/squared" ∧
  parent ["app"; "img"; "a.jpg"] = ["app"; "img"].
Proof. repeat split. Qed.

(** ** check_match *)

Example check_match_demo :
  check_match (Session (Some ["a.jpg"; "b.jpg"]) (Some []) (Some [0; 1; 1; 0])
                 (Some []) (Some 1) (Some []) (Some [])) 0 3
  = (Session (Some ["a.jpg"; "b.jpg"]) (Some []) (Some [0; 1; 1; 0])
       (Some [0; 3]) (Some 1) (Some [0]) (Some []),
     Returned (Json (CheckBody true (Some "a.jpg") (Some "a.jpg") 1 1 0 [0; 3] false))).
Proof. reflexivity. Qed.

Example dealt_session_cards : cards dealt_session = Some [1; 0; 1; 0].
Proof. reflexivity. Qed.

(** What an accepted call computes, with the two card values named. *)
Lemma check_match_accepted (s : session) (pos1 pos2 v1 v2 : Z) :
  let cs := session_get (cards s) [] in
  let ms := session_get (matched s) [] in
  let p1 := session_get (player1_matches s) [] in
  let p2 := session_get (player2_matches s) [] in
  let cp := session_get (current_player s) 1 in
  0 ≤ pos1 < len cs → 0 ≤ pos2 < len cs →
  pos1 ∉ ms → pos2 ∉ ms →
  cs !! Z.to_nat pos1 = Some v1 → cs !! Z.to_nat pos2 = Some v2 →
  check_match s pos1 pos2 =
    if v1 =? v2 then
      let ms' := ms ++ [pos1; pos2] in
      let p1' := if cp =? 1 then p1 ++ [v1] else p1 in
      let p2' := if cp =? 1 then p2 else p2 ++ [v1] in
      (Session (all_game_images s) (pending_crops s) (cards s)
         (Some ms') (Some cp) (Some p1') (Some p2'),
       Returned (Json (CheckBody true (get_card_image s v1) (get_card_image s v2)
                         cp (len p1') (len p2') ms' (len ms' =? len cs))))
    else
      let cp' := if cp =? 1 then 2 else 1 in
      (Session (all_game_images s) (pending_crops s) (cards s)
         (Some ms) (Some cp') (Some p1) (Some p2),
       Returned (Json (CheckBody false (get_card_image s v1) (get_card_image s v2)
                         cp' (len p1) (len p2) ms false))).
Proof.
  intros cs ms p1 p2 cp H1 H2 Hm1 Hm2 Hv1 Hv2. unfold check_match.
  fold cs ms p1 p2 cp.
  rewrite (index_guard_false cs pos1 pos2 H1 H2).
  rewrite (py_in_false pos1 ms Hm1), (py_in_false pos2 ms Hm2). cbn [orb].
  destruct (py_index_in_range cs pos1 H1) as [-> _].
  destruct (py_index_in_range cs pos2 H2) as [-> _].
  rewrite Hv1, Hv2.
  destruct (v1 =? v2); [destruct (cp =? 1)|]; reflexivity.
Qed.

(** C1. On a dealt board, for two positions in range and not yet matched:
    when the two cards are equal, [check_match] appends both positions to
    [matched], appends the value to the match list of the player whose turn
    it is (player 1's list when [current_player] is 1, player 2's
    otherwise), and keeps [current_player]; when they differ, it leaves
    [matched] and both match lists as they were and hands the turn over:
    from 1 to 2, from 2 to 1. *)
Theorem check_match_turn_logic (s : session) (pos1 pos2 : Z) :
  let cs := session_get (cards s) [] in
  let ms := session_get (matched s) [] in
  let p1 := session_get (player1_matches s) [] in
  let p2 := session_get (player2_matches s) [] in
  let cp := session_get (current_player s) 1 in
  0 ≤ pos1 < len cs → 0 ≤ pos2 < len cs →
  pos1 ∉ ms → pos2 ∉ ms →
  ∃ v1 v2 s' body,
    cs !! Z.to_nat pos1 = Some v1 ∧ cs !! Z.to_nat pos2 = Some v2 ∧
    check_match s pos1 pos2 = (s', Returned (Json body)) ∧
    (v1 = v2 →
       resp_is_match body = true ∧
       matched s' = Some (ms ++ [pos1; pos2]) ∧
       resp_matched_indices body = ms ++ [pos1; pos2] ∧
       (cp = 1 → player1_matches s' = Some (p1 ++ [v1])
                 ∧ player2_matches s' = Some p2) ∧
       (cp ≠ 1 → player2_matches s' = Some (p2 ++ [v1])
                 ∧ player1_matches s' = Some p1) ∧
       current_player s' = Some cp ∧ resp_current_player body = cp) ∧
    (v1 ≠ v2 →
       resp_is_match body = false ∧
       matched s' = Some ms ∧
       resp_matched_indices body = ms ∧
       player1_matches s' = Some p1 ∧ player2_matches s' = Some p2 ∧
       current_player s' = Some (resp_current_player body) ∧
       (cp = 1 → resp_current_player body = 2) ∧
       (cp = 2 → resp_current_player body = 1) ∧
       (resp_current_player body = 1 ∨ resp_current_player body = 2)).
Proof.
  intros cs ms p1 p2 cp H1 H2 Hm1 Hm2.
  destruct (py_index_in_range cs pos1 H1) as [_ [v1 Hv1]].
  destruct (py_index_in_range cs pos2 H2) as [_ [v2 Hv2]].
  pose proof (check_match_accepted s pos1 pos2 v1 v2 H1 H2 Hm1 Hm2 Hv1 Hv2) as E.
  fold cs ms p1 p2 cp in E.
  exists v1, v2. destruct (Z.eqb_spec v1 v2) as [Heq|Hne].
  - eexists _, _. split; [done|]. split; [done|]. split; [exact E|].
    split; [|done]. intros _. cbn.
    destruct (Z.eqb_spec cp 1) as [Hcp|Hcp]; repeat split; intros; done.
  - eexists _, _. split; [done|]. split; [done|]. split; [exact E|].
    split; [done|]. intros _. cbn.
    destruct (Z.eqb_spec cp 1) as [Hcp|Hcp]; repeat split; intros; auto; lia.
Qed.

Lemma check_match_turn_logic_witness :
  ∃ s' body,
    check_match dealt_session 0 2 = (s', Returned (Json body)) ∧
    matched s' = Some [0; 2] ∧ player1_matches s' = Some [1] ∧
    current_player s' = Some 1.
Proof.
  destruct (check_match_turn_logic dealt_session 0 2)
    as (v1 & v2 & s' & body & Hv1 & Hv2 & E & Heq & _).
  - vm_compute. split; [intros Hc; discriminate Hc | reflexivity].
  - vm_compute. split; [intros Hc; discriminate Hc | reflexivity].
  - apply not_elem_of_nil.
  - apply not_elem_of_nil.
  - exists s', body. split; [exact E|].
    assert (v1 = v2) as Hv by (vm_compute in Hv1, Hv2; congruence).
    assert (v1 = 1) as Hv1' by (vm_compute in Hv1; congruence).
    destruct (Heq Hv) as (_ & Hm & _ & Hp1 & _ & Hc & _).
    rewrite Hm. destruct (Hp1 eq_refl) as [Hp _]. rewrite Hp, Hc, Hv1'.
    repeat split.
Defined.

(** C10. Naming one unmatched position [i] twice is accepted: the call
    answers with [is_match = true], records [i] twice in [matched], and
    credits the player whose turn it is with one more pair. *)
Theorem check_match_same_position (s : session) (i : Z) :
  let cs := session_get (cards s) [] in
  let ms := session_get (matched s) [] in
  let p1 := session_get (player1_matches s) [] in
  let p2 := session_get (player2_matches s) [] in
  let cp := session_get (current_player s) 1 in
  0 ≤ i < len cs → i ∉ ms →
  ∃ s' body,
    check_match s i i = (s', Returned (Json body)) ∧
    resp_is_match body = true ∧
    matched s' = Some (ms ++ [i; i]) ∧
    resp_matched_indices body = ms ++ [i; i] ∧
    resp_current_player body = cp ∧
    (if cp =? 1
     then resp_player1_pairs body = len p1 + 1 ∧ resp_player2_pairs body = len p2
     else resp_player1_pairs body = len p1 ∧ resp_player2_pairs body = len p2 + 1).
Proof.
  intros cs ms p1 p2 cp Hi Hm.
  destruct (py_index_in_range cs i Hi) as [_ [v Hv]].
  pose proof (check_match_accepted s i i v v Hi Hi Hm Hm Hv Hv) as E.
  fold cs ms p1 p2 cp in E. rewrite Z.eqb_refl in E.
  eexists _, _. split; [exact E|]. cbn.
  repeat split. destruct (cp =? 1); rewrite len_app; done.
Qed.

Lemma check_match_same_position_witness :
  ∃ s' body,
    check_match dealt_session 0 0 = (s', Returned (Json body)) ∧
    resp_is_match body = true ∧ matched s' = Some [0; 0] ∧
    resp_player1_pairs body = 1.
Proof.
  destruct (check_match_same_position dealt_session 0)
    as (s' & body & E & Him & Hm & _ & _ & Hp).
  - vm_compute. split; [intros Hc; discriminate Hc | reflexivity].
  - apply not_elem_of_nil.
  - exists s', body. repeat split; [exact E | exact Him | exact Hm |].
    exact (proj1 Hp).
Defined.

(** *** The [matched] list over a run of calls *)

(** A call answers with a JSON body exactly when both positions are in
    range and unmatched; every other call is refused and changes nothing. *)
Lemma check_match_refused (s : session) (pos1 pos2 : Z) :
  let cs := session_get (cards s) [] in
  let ms := session_get (matched s) [] in
  ¬ (0 ≤ pos1 < len cs ∧ 0 ≤ pos2 < len cs ∧ (pos1 ∉ ms) ∧ (pos2 ∉ ms)) →
  ∃ msg, check_match s pos1 pos2 = (s, Returned (JsonError msg 400)).
Proof.
  intros cs ms Hn. unfold check_match. fold cs ms.
  destruct (decide (0 ≤ pos1 < len cs ∧ 0 ≤ pos2 < len cs)) as [[H1 H2]|Hr].
  - rewrite (index_guard_false cs pos1 pos2 H1 H2).
    destruct (decide (pos1 ∈ ms)) as [Hin|Hout].
    + unfold py_in. rewrite (bool_decide_eq_true_2 _ Hin). eauto.
    + destruct (decide (pos2 ∈ ms)) as [Hin2|Hout2]; [|tauto].
      unfold py_in. rewrite (bool_decide_eq_true_2 _ Hin2), orb_true_r. eauto.
  - rewrite (index_guard_true cs pos1 pos2 Hr). eauto.
Qed.

(** No exception escapes [check_match]. *)
Lemma check_match_returns (s : session) (pos1 pos2 : Z) :
  ∃ s' r, check_match s pos1 pos2 = (s', Returned r).
Proof.
  set (cs := session_get (cards s) []). set (ms := session_get (matched s) []).
  destruct (decide (0 ≤ pos1 < len cs ∧ 0 ≤ pos2 < len cs
                    ∧ (pos1 ∉ ms) ∧ (pos2 ∉ ms))) as [(H1 & H2 & Hm1 & Hm2)|Hn].
  - destruct (py_index_in_range cs pos1 H1) as [_ [v1 Hv1]].
    destruct (py_index_in_range cs pos2 H2) as [_ [v2 Hv2]].
    rewrite (check_match_accepted s pos1 pos2 v1 v2 H1 H2 Hm1 Hm2 Hv1 Hv2).
    destruct (v1 =? v2); eauto.
  - destruct (check_match_refused s pos1 pos2 Hn) as [msg ->]. eauto.
Qed.

(** [len(matched)] stays even, whatever the calls. *)
Lemma check_match_even (s : session) (pos1 pos2 : Z) :
  Nat.Even (length (session_get (matched s) [])) →
  Nat.Even (length (session_get (matched (check_match s pos1 pos2).1) [])).
Proof.
  intros He.
  set (cs := session_get (cards s) []). set (ms := session_get (matched s) []).
  destruct (decide (0 ≤ pos1 < len cs ∧ 0 ≤ pos2 < len cs
                    ∧ (pos1 ∉ ms) ∧ (pos2 ∉ ms))) as [(H1 & H2 & Hm1 & Hm2)|Hn].
  - destruct (py_index_in_range cs pos1 H1) as [_ [v1 Hv1]].
    destruct (py_index_in_range cs pos2 H2) as [_ [v2 Hv2]].
    rewrite (check_match_accepted s pos1 pos2 v1 v2 H1 H2 Hm1 Hm2 Hv1 Hv2).
    destruct (v1 =? v2); cbn; [|exact He].
    destruct He as [n Hn]. exists (S n).
    rewrite length_app, Hn. cbn. lia.
  - destruct (check_match_refused s pos1 pos2 Hn) as [msg ->]. exact He.
Qed.

Lemma run_checks_even (s : session) (moves : list (Z * Z)) :
  Nat.Even (length (session_get (matched s) [])) →
  Nat.Even (length (session_get (matched (run_checks s moves)) [])).
Proof.
  revert s. induction moves as [|m moves IH]; intros s He; [exact He|].
  apply IH. by apply check_match_even.
Qed.

Lemma range_elem (n : nat) (p : Z) : p ∈ range n ↔ 0 ≤ p < Z.of_nat n.
Proof.
  unfold range. rewrite list_elem_of_fmap. split.
  - intros (i & -> & Hi). apply elem_of_seq in Hi. lia.
  - intros Hp. exists (Z.to_nat p). split; [lia|]. apply elem_of_seq. lia.
Qed.

Lemma range_length (n : nat) : length (range n) = n.
Proof. unfold range. by rewrite length_fmap, length_seq. Qed.

(** With distinct in-range positions, fewer than [len(cards)] are matched
    as long as one position is not. *)
Lemma matched_set_not_full (s : session) (p : Z) :
  let cs := session_get (cards s) [] in
  let ms := session_get (matched s) [] in
  matched_set s → 0 ≤ p < len cs → p ∉ ms → len ms < len cs.
Proof.
  intros cs ms [Hnd Hin] Hp Hout.
  assert (p :: ms ⊆+ range (length cs)) as Hsub.
  { apply NoDup_submseteq; [by constructor|].
    intros q Hq. apply range_elem. apply elem_of_cons in Hq as [->|Hq]; [done|].
    by apply Hin. }
  apply submseteq_length in Hsub. rewrite range_length in Hsub.
  cbn in Hsub. unfold len. lia.
Qed.

(** When the two positions of a call differ, [matched] stays a set of
    positions, and the call's [game_over] says exactly whether every card
    is matched. *)
Lemma check_match_distinct_positions (s : session) (pos1 pos2 : Z) :
  let cs := session_get (cards s) [] in
  let ms := session_get (matched s) [] in
  matched_set s → pos1 ≠ pos2 →
  matched_set (check_match s pos1 pos2).1 ∧
  ∀ s' body, check_match s pos1 pos2 = (s', Returned (Json body)) →
    (resp_game_over body = true
     ↔ len (session_get (matched s') []) = len (session_get (cards s') [])).
Proof.
  intros cs ms Hset Hne.
  destruct (decide (0 ≤ pos1 < len cs ∧ 0 ≤ pos2 < len cs
                    ∧ (pos1 ∉ ms) ∧ (pos2 ∉ ms))) as [(H1 & H2 & Hm1 & Hm2)|Hn].
  - destruct (py_index_in_range cs pos1 H1) as [_ [v1 Hv1]].
    destruct (py_index_in_range cs pos2 H2) as [_ [v2 Hv2]].
    rewrite (check_match_accepted s pos1 pos2 v1 v2 H1 H2 Hm1 Hm2 Hv1 Hv2).
    fold cs ms. destruct (v1 =? v2); cbn.
    + split.
      * destruct Hset as [Hnd Hin]. split; cbn; fold cs ms.
        -- apply NoDup_app. split; [done|]. split.
           ++ intros q Hq Hq'. apply elem_of_cons in Hq' as [->|Hq']; [done|].
              apply list_elem_of_singleton in Hq' as ->. done.
           ++ apply NoDup_cons. split; [|apply NoDup_singleton].
              by intros ->%list_elem_of_singleton.
        -- intros q Hq. apply elem_of_app in Hq as [Hq|Hq]; [by apply Hin|].
           apply elem_of_cons in Hq as [->|Hq]; [done|].
           apply list_elem_of_singleton in Hq as ->. done.
      * intros s' body [= <- <-]. cbn. fold cs ms. apply Z.eqb_eq.
    + split; [exact Hset|].
      intros s' body [= <- <-]. cbn. fold cs ms.
      pose proof (matched_set_not_full s pos1 Hset H1 Hm1) as Hlt.
      subst cs ms. unfold session_get in *. split; [done | lia].
  - destruct (check_match_refused s pos1 pos2 Hn) as [msg ->].
    split; [exact Hset|]. intros s' body [=].
Qed.

(** C2. On the board dealt for two images, [check_match(0, 0)] is accepted
    and records position 0 twice, so [matched] is not a set; after
    [check_match(1, 1)] the answer says [game_over] while positions 2 and 3
    are unmatched; and the next call, on those two positions, answers
    [game_over = false] although [len(matched) = len(cards)]. *)
Theorem check_match_same_position_breaks_matched :
  let s1 := (check_match dealt_session 0 0).1 in
  let '(s2, r2) := check_match s1 1 1 in
  let '(s3, r3) := check_match s2 2 3 in
  cards dealt_session = Some [1; 0; 1; 0] ∧
  matched s1 = Some [0; 0] ∧ ¬ NoDup [0; 0] ∧
  matched s2 = Some [0; 0; 1; 1] ∧
  r2 = Returned (Json (CheckBody true (Some "a.jpg") (Some "a.jpg") 1 2 0
                         [0; 0; 1; 1] true)) ∧
  r3 = Returned (Json (CheckBody false (Some "b.png") (Some "a.jpg") 2 2 0
                         [0; 0; 1; 1] false)) ∧
  len (session_get (matched s3) []) = len (session_get (cards s3) []).
Proof.
  vm_compute. repeat split; try reflexivity.
  intros Hnd. apply NoDup_cons in Hnd as [Hnd _]. apply Hnd. left.
Qed.

(** ** Shuffling and dealing *)

Lemma swap_Permutation {A} (x : list A) (i j : nat) : swap x i j ≡ₚ x.
Proof.
  unfold swap. destruct (x !! i) as [a|] eqn:Hi; [|done].
  destruct (x !! j) as [b|] eqn:Hj; [|done].
  by apply Permutation_insert_swap.
Qed.

Lemma shuffle_from_Permutation {A} (i : nat) (x : list A) (g : rng) :
  (shuffle_from i x g).1 ≡ₚ x.
Proof.
  revert x g. induction i as [|i IH]; intros x g; [done|].
  cbn [shuffle_from]. destruct (randbelow (S (S i)) g) as [j g'].
  rewrite IH. apply swap_Permutation.
Qed.

Lemma shuffle_Permutation {A} (x : list A) (g : rng) : (shuffle x g).1 ≡ₚ x.
Proof. apply shuffle_from_Permutation. Qed.

Lemma range_NoDup (n : nat) : NoDup (range n).
Proof.
  unfold range. apply NoDup_fmap_2; [|apply NoDup_seq].
  intros a b Hab. lia.
Qed.

Lemma count_occ_range (n : nat) (v : Z) :
  0 ≤ v < Z.of_nat n → count_occ Z.eq_dec (range n) v = 1%nat.
Proof.
  intros Hv. apply NoDup_count_occ'; [apply NoDup_ListNoDup, range_NoDup|].
  apply list_elem_of_In, range_elem, Hv.
Qed.

(** C8. After [setup_card_pairs] over [k] selected images, [cards] is a
    permutation of [0, ..., k-1, 0, ..., k-1]: it has length [2k], holds
    every value of [0, k) exactly twice and nothing else; and [matched] is
    empty. *)
Theorem setup_card_pairs_deals_pairs (s : session) (g : rng) :
  let k := length (session_get (all_game_images s) []) in
  let s' := (setup_card_pairs s g).1 in
  ∃ cs,
    cards s' = Some cs ∧
    cs ≡ₚ range k ++ range k ∧
    length cs = (2 * k)%nat ∧
    (∀ v, 0 ≤ v < Z.of_nat k → count_occ Z.eq_dec cs v = 2%nat) ∧
    (∀ v, v ∈ cs → 0 ≤ v < Z.of_nat k) ∧
    matched s' = Some [].
Proof.
  intros k s'. subst s'. unfold setup_card_pairs. fold k.
  pose proof (shuffle_Permutation (range k ++ range k) g) as Hp.
  destruct (shuffle (range k ++ range k) g) as [cs g']. cbn in *.
  exists cs. split; [done|]. split; [exact Hp|]. split; [|split; [|split]].
  - rewrite Hp, length_app, range_length. lia.
  - intros v Hv. rewrite (Permutation_count_occ Z.eq_dec) in Hp.
    rewrite Hp, count_occ_app, count_occ_range by done. done.
  - intros v Hv. rewrite Hp in Hv. apply elem_of_app in Hv.
    rewrite range_elem in Hv. tauto.
  - done.
Qed.

Lemma setup_card_pairs_deals_pairs_witness :
  ∃ cs, cards dealt_session = Some cs ∧ length cs = 4%nat
        ∧ count_occ Z.eq_dec cs 0 = 2%nat ∧ count_occ Z.eq_dec cs 1 = 2%nat.
Proof.
  destruct (setup_card_pairs_deals_pairs selected_session zero_rng)
    as (cs & Hc & _ & Hl & Hcount & _).
  exists cs. split; [exact Hc|]. split; [exact Hl|]. split.
  - apply Hcount. vm_compute. split; [intros Hc'; discriminate Hc' | reflexivity].
  - apply Hcount. vm_compute. split; [intros Hc'; discriminate Hc' | reflexivity].
Defined.

(** ** Selecting the images *)

Section Selection.
Context `{Platform}.

(** C9. When the catalog lists fewer than [k] images,
    [_get_k_random_images(k)] returns the names of all of them, raises
    nothing and draws no random number. *)
Theorem k_random_images_small_catalog (fs : gmap path node) (k : Z) (g : rng)
    (files : list path) :
  _get_image_files fs = Returned files →
  len files < k →
  _get_k_random_images fs k g = (Returned (name <$> files), g).
Proof.
  intros Hfiles Hlt. unfold _get_k_random_images. rewrite Hfiles.
  destruct (Z.leb_spec (len files) k); [done | lia].
Qed.

End Selection.

Lemma k_random_images_small_catalog_witness :
  @_get_k_random_images demo_platform demo_disk 3 zero_rng
  = (Returned ["a.jpg"; "b.png"], zero_rng).
Proof.
  apply (@k_random_images_small_catalog demo_platform demo_disk 3 zero_rng
           [["app"; "img"; "a.jpg"]; ["app"; "img"; "b.png"]]).
  - vm_compute. reflexivity.
  - vm_compute. reflexivity.
Defined.

(** ** The session across requests *)

Section Requests.
Context `{Platform}.

Lemma setup_card_pairs_frame (s : session) (g : rng) :
  let s' := (setup_card_pairs s g).1 in
  all_game_images s' = all_game_images s ∧
  pending_crops s' = pending_crops s ∧
  is_Some (cards s') ∧ matched s' = Some [] ∧
  current_player s' = current_player s ∧
  player1_matches s' = player1_matches s ∧
  player2_matches s' = player2_matches s.
Proof.
  unfold setup_card_pairs. destruct (shuffle _ g) as [cs g']. cbn.
  repeat split. by exists cs.
Qed.

Lemma deal_frame (w : world) :
  sess (deal w) = (setup_card_pairs (sess w) (gen w)).1 ∧ disk (deal w) = disk w.
Proof.
  unfold deal. by destruct (setup_card_pairs (sess w) (gen w)) as [s g].
Qed.

Lemma deal_shape (w : world) :
  is_Some (all_game_images (sess w)) →
  session_shape (sess w) → session_shape (sess (deal w)).
Proof.
  intros Himg Hs. destruct (deal_frame w) as [-> _].
  destruct (setup_card_pairs_frame (sess w) (gen w))
    as (Ha & Hp & Hc & Hm & Hcp & Hp1 & Hp2).
  destruct Hs as [Hs|(?&?&?&?&?&?&?)].
  - rewrite Hs in Himg. by destruct Himg.
  - right. rewrite Ha, Hp, Hm, Hcp, Hp1, Hp2. eauto 10.
Qed.

Lemma init_game_state_cases (w : world) :
  (∃ g e, init_game_state w = (World (sess w) (disk w) g, Raised e)) ∨
  (∃ sel pending fs g,
     init_game_state w =
       (World (Session (Some sel) (Some pending) (Some []) (Some [])
                 (Some 1) (Some []) (Some [])) fs g, Returned ())).
Proof.
  unfold init_game_state.
  destruct (_get_k_random_images _ _ _) as [[sel|e] g]; [|eauto].
  destruct (scan_selected _ _ _) as [pending fs]. right. eauto 10.
Qed.

Lemma init_game_state_shape (w : world) :
  session_shape (sess w) → session_shape (sess (init_game_state w).1).
Proof.
  intros Hs.
  destruct (init_game_state_cases w) as [(g & e & ->)|(sel & p & fs & g & ->)];
    [done|].
  right. cbn. eauto 10.
Qed.

Lemma check_match_shape (s : session) (pos1 pos2 : Z) :
  session_shape s → session_shape (check_match s pos1 pos2).1.
Proof.
  intros Hs.
  set (cs := session_get (cards s) []). set (ms := session_get (matched s) []).
  destruct (decide (0 ≤ pos1 < len cs ∧ 0 ≤ pos2 < len cs
                    ∧ (pos1 ∉ ms) ∧ (pos2 ∉ ms))) as [(H1 & H2 & Hm1 & Hm2)|Hn].
  - destruct (py_index_in_range cs pos1 H1) as [_ [v1 Hv1]].
    destruct (py_index_in_range cs pos2 H2) as [_ [v2 Hv2]].
    rewrite (check_match_accepted s pos1 pos2 v1 v2 H1 H2 Hm1 Hm2 Hv1 Hv2).
    destruct Hs as [->|(?&?&?&?&Hcp&?&?)].
    { exfalso. subst cs. cbn in H1. unfold len in H1. cbn in H1. lia. }
    right. destruct (v1 =? v2); cbn.
    + destruct Hcp as [-> | ->]; cbn; eauto 10.
    + destruct Hcp as [-> | ->]; cbn; eauto 10.
  - by destruct (check_match_refused s pos1 pos2 Hn) as [msg ->].
Qed.

Lemma save_crop_shape (w : world) filename crop_box :
  session_shape (sess w) → session_shape (sess (save_crop w filename crop_box).1).
Proof.
  intros Hs. unfold save_crop.
  destruct filename as [filename|], crop_box as [crop_box|]; try done.
  destruct (_ || _); [done|].
  destruct (get_safe_image_path _ _); [|done].
  destruct (save_cropped_image _ _ _) as [temp fs].
  destruct (bool_decide _); [done|].
  destruct (pending_crops (sess w)) as [queue|] eqn:Hl; [|done].
  destruct (py_remove filename queue) as [pending|]; [|done].
  assert (session_shape
            (Session (all_game_images (sess w)) (Some pending) (cards (sess w))
               (matched (sess w)) (current_player (sess w))
               (player1_matches (sess w)) (player2_matches (sess w)))
          ∧ is_Some (all_game_images (sess w))) as [Hs' Himg].
  { destruct Hs as [Hs|(?&?&?&?&?&?&?)].
    - rewrite Hs in Hl. discriminate Hl.
    - split; [|done]. right. cbn. eauto 10. }
  destruct pending as [|next rest]; [|exact Hs'].
  apply deal_shape; done.
Qed.

Lemma init_shape (w : world) :
  session_shape (sess w) → session_shape (sess (init w).1).
Proof.
  intros Hs. unfold init.
  destruct (all_game_images (sess w)) as [imgs|] eqn:Himg.
  - cbn. destruct (default [] (pending_crops (sess w))) as [|p rest]; cbn.
    + apply deal_shape; cbn; [done|]. right. cbn.
      destruct Hs as [Hs|(?&?&?&?&?&?&?)]; [by rewrite Hs in Himg|]. eauto 10.
    + right. cbn.
      destruct Hs as [Hs|(?&?&?&?&?&?&?)]; [by rewrite Hs in Himg|]. eauto 10.
  - destruct (init_game_state_cases w) as [(g & e & ->)|(sel & p & fs & g & ->)];
      [done|]. cbn.
    destruct p as [|p rest]; cbn; [|right; cbn; eauto 10].
    apply deal_shape; cbn; [done|]. right. cbn. eauto 10.
Qed.

Lemma get_board_shape (w : world) :
  session_shape (sess w) → session_shape (sess (get_board w).1).
Proof.
  intros Hs.
  assert (∀ w1, session_shape (sess w1) → is_Some (all_game_images (sess w1)) →
            session_shape (sess (match session_get (cards (sess w1)) [] with
                                 | [] => deal w1 | _ :: _ => w1 end))) as Hdeal.
  { intros w1 Hs1 Hi. destruct (session_get _ _); [by apply deal_shape|done]. }
  assert (session_shape (sess (get_board_try w).1)) as Htry.
  { unfold get_board_try.
    destruct (all_game_images (sess w)) as [imgs|] eqn:Himg.
    - specialize (Hdeal w Hs). rewrite Himg in Hdeal.
      specialize (Hdeal (ltac:(eauto))).
      repeat (case_match; try done).
    - destruct (init_game_state_cases w) as [(g & e & ->)|(sel & p & fs & g & ->)];
        [done|].
      match goal with |- context [session_get (cards (sess ?w1)) []] =>
        specialize (Hdeal w1) end.
      cbn in Hdeal. cbn.
      assert (session_shape (sess (deal (World (Session (Some sel) (Some p) (Some []) (Some []) (Some 1) (Some []) (Some [])) fs g)))) as Hd.
      { apply Hdeal; [right; cbn; eauto 10 | cbn; eauto]. }
      repeat (case_match; try done). }
  unfold get_board. destruct (get_board_try w) as [w' [r|e]]; done.
Qed.

Lemma index_shape (w : world) :
  session_shape (sess w) → session_shape (sess (index w).1).
Proof.
  intros Hs. unfold index. destruct (cards (sess w)); [done|].
  pose proof (init_game_state_shape w Hs) as Hi.
  by destruct (init_game_state w) as [w' [r|e]].
Qed.

(** Every reachable session has the shape above. *)
Lemma reachable_shape (w : world) : reachable w → session_shape (sess w).
Proof.
  induction 1 as [fs g|w r Hw IH]; [by left|].
  destruct r; cbn [handle].
  - by apply index_shape.
  - by apply save_crop_shape.
  - by apply init_shape.
  - by apply get_board_shape.
  - unfold check. pose proof (check_match_shape (sess w) card1 card2 IH).
    by destruct (check_match (sess w) card1 card2).
  - by left.
Qed.

(** In particular the player to move is always 1 or 2. *)
Lemma reachable_current_player (w : world) :
  reachable w →
  session_get (current_player (sess w)) 1 = 1
  ∨ session_get (current_player (sess w)) 1 = 2.
Proof.
  intros Hw. destruct (reachable_shape w Hw) as [->|(_&_&_&_&[-> | ->]&_)];
    cbn; auto.
Qed.

End Requests.

(** ** Re-initialisation and reset *)

Section Rounds.
Context `{Platform}.

Lemma check_match_frame (s : session) (pos1 pos2 : Z) :
  let s' := (check_match s pos1 pos2).1 in
  all_game_images s' = all_game_images s ∧
  pending_crops s' = pending_crops s ∧
  cards s' = cards s.
Proof.
  set (cs := session_get (cards s) []). set (ms := session_get (matched s) []).
  destruct (decide (0 ≤ pos1 < len cs ∧ 0 ≤ pos2 < len cs
                    ∧ (pos1 ∉ ms) ∧ (pos2 ∉ ms))) as [(H1 & H2 & Hm1 & Hm2)|Hn].
  - destruct (py_index_in_range cs pos1 H1) as [_ [v1 Hv1]].
    destruct (py_index_in_range cs pos2 H2) as [_ [v2 Hv2]].
    rewrite (check_match_accepted s pos1 pos2 v1 v2 H1 H2 Hm1 Hm2 Hv1 Hv2).
    by destruct (v1 =? v2).
  - by destruct (check_match_refused s pos1 pos2 Hn) as [msg ->].
Qed.

Lemma deal_images (w : world) :
  all_game_images (sess (deal w)) = all_game_images (sess w)
  ∧ pending_crops (sess (deal w)) = pending_crops (sess w).
Proof.
  destruct (deal_frame w) as [-> _].
  destruct (setup_card_pairs_frame (sess w) (gen w)) as (Ha & Hp & _). done.
Qed.

Lemma save_crop_images (w : world) filename crop_box :
  all_game_images (sess (save_crop w filename crop_box).1)
  = all_game_images (sess w).
Proof.
  unfold save_crop.
  destruct filename as [filename|], crop_box as [crop_box|]; try done.
  destruct (_ || _); [done|].
  destruct (get_safe_image_path _ _); [|done].
  destruct (save_cropped_image _ _ _) as [temp fs].
  destruct (bool_decide _); [done|].
  destruct (pending_crops (sess w)) as [queue|]; [|done].
  destruct (py_remove filename queue) as [[|next rest]|]; try done.
  cbn. by rewrite (proj1 (deal_images _)).
Qed.

Lemma get_board_images (w : world) :
  is_Some (all_game_images (sess w)) →
  all_game_images (sess (get_board w).1) = all_game_images (sess w).
Proof.
  intros [imgs Himg].
  assert (all_game_images (sess (get_board_try w).1) = all_game_images (sess w))
    as Htry.
  { unfold get_board_try. rewrite Himg.
    assert (all_game_images
              (sess match session_get (cards (sess w)) [] with
                    | [] => deal w | _ :: _ => w end) = Some imgs) as Hd.
    { destruct (session_get _ _); [|done]. by rewrite (proj1 (deal_images _)). }
    repeat (case_match; try done). }
  unfold get_board. by destruct (get_board_try w) as [w' [r|e]].
Qed.

(** C7. Once a round is selected, [init] keeps it: [all_game_images], the
    [pending_crops] queue and the disk are what they were, and with crops
    pending the answer names the head of that same queue without drawing a
    random number. No request other than [reset] removes or changes
    [all_game_images]; [reset] removes it. *)
Theorem init_keeps_selected_round (w : world) (imgs : list string) :
  reachable w →
  all_game_images (sess w) = Some imgs →
  let w' := (init w).1 in
  all_game_images (sess w') = Some imgs ∧
  pending_crops (sess w') = pending_crops (sess w) ∧
  disk w' = disk w ∧
  (∀ p rest, pending_crops (sess w) = Some (p :: rest) →
     (init w).2 = Returned (Json (InitPending p (len (p :: rest))))
     ∧ gen w' = gen w) ∧
  (∀ r, r ≠ PostReset → all_game_images (sess (handle w r)) = Some imgs) ∧
  all_game_images (sess (handle w PostReset)) = None.
Proof.
  intros Hw Himg.
  assert (all_game_images (sess (init w).1) = Some imgs
          ∧ pending_crops (sess (init w).1) = pending_crops (sess w)
          ∧ disk (init w).1 = disk w) as (Ha & Hp & Hd).
  { unfold init. rewrite Himg. cbn.
    destruct (default [] (pending_crops (sess w))); cbn; [|done].
    destruct (deal_images (World (Session (Some imgs) (pending_crops (sess w))
                (Some []) (Some []) (Some 1) (Some []) (Some []))
                (disk w) (gen w))) as [-> ->].
    by rewrite (proj2 (deal_frame _)). }
  cbn zeta. split; [exact Ha|]. split; [exact Hp|]. split; [exact Hd|].
  split; [|split].
  - intros p rest Hq. unfold init. rewrite Himg. cbn. rewrite Hq. done.
  - intros r Hr. destruct r; cbn [handle]; try done.
    + unfold index. destruct (cards (sess w)) eqn:Hc; [done|].
      destruct (reachable_shape w Hw) as [Hs|(_&_&[c Hc']&_)].
      * rewrite Hs in Himg. discriminate Himg.
      * rewrite Hc in Hc'. discriminate Hc'.
    + by rewrite save_crop_images.
    + rewrite get_board_images; [done|]. by rewrite Himg.
    + unfold check.
      pose proof (check_match_frame (sess w) card1 card2) as (Hf & _).
      destruct (check_match (sess w) card1 card2) as [s' r]. cbn in *. congruence.
  - done.
Qed.

End Rounds.

Lemma init_keeps_selected_round_witness :
  all_game_images (sess (@init demo_platform started_world).1)
  = Some ["a.jpg"; "b.png"]
  ∧ pending_crops (sess (@init demo_platform started_world).1)
    = pending_crops (sess started_world).
Proof.
  destruct (@init_keeps_selected_round demo_platform started_world
              ["a.jpg"; "b.png"]) as (Ha & Hp & _).
  - apply (@reachable_step demo_platform _ PostInit), reachable_start.
  - vm_compute. reflexivity.
  - split; [exact Ha | exact Hp].
Defined.

(** C4. The two filenames in an answer of [check_match] are the entries of
    [all_game_images] at the two revealed card values, that is, base
    filenames, whatever the disk holds ([None] for a value that is not an
    index of [all_game_images]). *)
Theorem check_match_returns_base_filenames (w w' : world) (pos1 pos2 : Z)
    (body : check_body) :
  check w pos1 pos2 = (w', Returned (Json body)) →
  let images := session_get (all_game_images (sess w)) [] in
  let cs := session_get (cards (sess w)) [] in
  ∃ v1 v2,
    cs !! Z.to_nat pos1 = Some v1 ∧ cs !! Z.to_nat pos2 = Some v2 ∧
    resp_image1 body
      = (if bool_decide (0 ≤ v1 < len images) then images !! Z.to_nat v1 else None) ∧
    resp_image2 body
      = (if bool_decide (0 ≤ v2 < len images) then images !! Z.to_nat v2 else None).
Proof.
  intros Hc images cs. unfold check in Hc.
  set (ms := session_get (matched (sess w)) []).
  assert (∀ v, get_card_image (sess w) v
               = if bool_decide (0 ≤ v < len images) then images !! Z.to_nat v
                 else None) as Himg.
  { intros v. unfold get_card_image. fold images.
    destruct (Z.leb_spec 0 v), (Z.ltb_spec v (len images)); cbn;
      case_bool_decide; done || lia. }
  destruct (decide (0 ≤ pos1 < len cs ∧ 0 ≤ pos2 < len cs
                    ∧ (pos1 ∉ ms) ∧ (pos2 ∉ ms))) as [(H1 & H2 & Hm1 & Hm2)|Hn].
  - destruct (py_index_in_range cs pos1 H1) as [_ [v1 Hv1]].
    destruct (py_index_in_range cs pos2 H2) as [_ [v2 Hv2]].
    rewrite (check_match_accepted (sess w) pos1 pos2 v1 v2 H1 H2 Hm1 Hm2 Hv1 Hv2)
      in Hc.
    exists v1, v2. rewrite <- !Himg.
    destruct (v1 =? v2); cbn in Hc; injection Hc as _ <-; done.
  - destruct (check_match_refused (sess w) pos1 pos2 Hn) as [msg Hr].
    rewrite Hr in Hc. discriminate Hc.
Qed.

Lemma check_match_returns_base_filenames_witness :
  ∃ body, (check cropped_world 0 2).2 = Returned (Json body)
          ∧ resp_image1 body = Some "b.png" ∧ resp_image2 body = Some "b.png".
Proof.
  assert (∃ w' body, check cropped_world 0 2 = (w', Returned (Json body)))
    as (w' & body & Hc).
  { eexists _, _. vm_compute. reflexivity. }
  destruct (check_match_returns_base_filenames cropped_world w' 0 2 body Hc)
    as (v1 & v2 & Hv1 & Hv2 & Hi1 & Hi2).
  exists body. rewrite Hc. split; [reflexivity|].
  vm_compute in Hv1, Hv2.
  injection Hv1 as <-. injection Hv2 as <-. split; [exact Hi1 | exact Hi2].
Defined.

(** With the derivative of [b.png] on disk, so that the display filename
    of [b.png] is [squared/b_square.jpg], [check_match] on the two cards
    showing [b.png] still answers with [b.png]. *)
Lemma check_match_ignores_derivative :
  @_has_cropped_version demo_platform (disk cropped_world) "b.png" = true ∧
  @_get_display_filename demo_platform (disk cropped_world) "b.png"
    = "squared/b_square.jpg" ∧
  ∃ body, (check cropped_world 0 2).2 = Returned (Json body) ∧
    resp_image1 body = Some "b.png" ∧
    resp_image1 body ≠ Some "squared/b_square.jpg" ∧
    resp_image1 body ≠ Some "b_square.jpg".
Proof.
  split; [vm_compute; reflexivity|]. split; [vm_compute; reflexivity|].
  eexists. split; [vm_compute; reflexivity|]. cbn.
  split; [reflexivity|]. split; intros Hc; discriminate Hc.
Qed.

(** ** Submitting crops *)

Section Crops.
Context `{Platform}.

(** A crop that is written for a file that is not in the queue ends in the
    [ValueError] of [list.remove]; the session is as before, the derivative
    is on disk. *)
Lemma save_crop_not_pending (w : world) (filename : string)
    (crop_box : gmap string Z) (queue : list string) (p : path)
    (square : string) (fs : gmap path node) :
  filename ≠ "" → crop_box ≠ ∅ →
  get_safe_image_path (disk w) filename = Some p →
  save_cropped_image (disk w) filename crop_box = (Some square, fs) →
  square ≠ "" →
  pending_crops (sess w) = Some queue → filename ∉ queue →
  save_crop w (Some filename) (Some crop_box)
  = (World (sess w) fs (gen w),
     Raised (ValueError "list.remove(x): x not in list")).
Proof.
  intros Hf Hb Hp Hsave Hsq Hq Hnot. unfold save_crop.
  rewrite (bool_decide_eq_false_2 _ Hf), (bool_decide_eq_false_2 _ Hb). cbn.
  rewrite Hp, Hsave, Hq.
  rewrite bool_decide_eq_false_2 by (intros [?|?]; congruence).
  assert (py_remove filename queue = None) as ->; [|done].
  clear Hq. induction queue as [|y t IH]; [done|]. cbn.
  apply not_elem_of_cons in Hnot as [Hne Hnot].
  destruct (decide (filename = y)); [done|]. by rewrite IH.
Qed.

End Crops.

(** C3. With [b.png] the only pending crop: a crop submitted for [a.jpg],
    which was never pending, raises [ValueError]; the crop for [b.png] is
    accepted and empties the queue; the same crop submitted again raises
    [ValueError]; and a crop submitted without a session raises [KeyError].
    None of the three refused calls answers with an error response. *)
Theorem save_crop_not_pending_raises :
  let r0 := (@save_crop demo_platform (World cleared demo_disk zero_rng)
               (Some "b.png") (Some demo_box)).2 in
  let r1 := (@save_crop demo_platform started_world (Some "a.jpg")
               (Some demo_box)).2 in
  let '(w2, r2) := @save_crop demo_platform started_world (Some "b.png")
                     (Some demo_box) in
  let r3 := (@save_crop demo_platform w2 (Some "b.png") (Some demo_box)).2 in
  pending_crops (sess started_world) = Some ["b.png"] ∧
  r0 = Raised (KeyError "pending_crops") ∧
  r1 = Raised (ValueError "list.remove(x): x not in list") ∧
  r2 = Returned (Json CropOk) ∧
  pending_crops (sess w2) = Some [] ∧
  r3 = Raised (ValueError "list.remove(x): x not in list").
Proof. vm_compute. repeat split. Qed.

(** ** Paths as strings *)

Section PosixStrings.

Local Abbreviation tail l := (String.concat "" ((λ c, "/" +:+ c) <$> l)).


















End PosixStrings.

(** ** The derivative cache *)

Section Cache.
Context `{Platform}.

Implicit Types fs : gmap path node.

(** A walk that succeeded still succeeds when no directory has gone. *)
Lemma walkable_dirs_kept fs fs' (p : path) :
  (∀ k, fs !! k = Some Dir → fs' !! k = Some Dir) →
  walkable fs p = true → walkable fs' p = true.
Proof.
  intros Hd. unfold walkable. rewrite !forallb_forall. intros Hw q Hq.
  specialize (Hw q Hq). destruct (fs !! resolve q) as [[|c]|] eqn:E; try done.
  by rewrite (Hd _ E).
Qed.

Lemma stat_Some fs (p : path) (n : node) :
  stat fs p = Some n ↔ walkable fs p = true ∧ fs !! resolve p = Some n.
Proof.
  unfold stat. destruct (walkable fs p); [|by split; [|intros []]].
  by split; [|intros []].
Qed.

Lemma path_exists_stat fs (p : path) :
  path_exists fs p = true ↔ is_Some (stat fs p).
Proof. unfold path_exists. by rewrite bool_decide_eq_true. Qed.



Lemma write_file_Some fs (p : path) (b : bytes) fs' :
  write_file fs p b = Some fs' ↔
  walkable fs p = true ∧ fs !! resolve p ≠ Some Dir ∧
  fs !! parent (resolve p) = Some Dir ∧ fs' = <[resolve p := File b]> fs.
Proof.
  unfold write_file. destruct (walkable fs p); [|by split; [|intros []]].
  destruct (fs !! resolve p) as [[|c]|], (fs !! parent (resolve p)) as [[|c']|];
    (split; [intros [= <-] || intros [=] | intros (_ & Hnd & Hpar & ->)]);
    done.
Qed.

Lemma write_file_dirs_kept fs (p : path) (b : bytes) fs' :
  write_file fs p b = Some fs' → ∀ k, fs !! k = Some Dir → fs' !! k = Some Dir.
Proof.
  intros (Hw & Hnd & Hpar & ->)%write_file_Some k Hk.
  rewrite lookup_insert_ne; [done|]. intros <-. by apply Hnd.
Qed.

Lemma write_file_stat fs (p : path) (b : bytes) fs' :
  write_file fs p b = Some fs' → stat fs' p = Some (File b).
Proof.
  intros Hw. pose proof (write_file_dirs_kept _ _ _ _ Hw) as Hd.
  apply write_file_Some in Hw as (Hw & Hnd & Hpar & ->).
  apply stat_Some. split; [by apply (walkable_dirs_kept fs)|].
  by rewrite lookup_insert_eq.
Qed.

Lemma write_file_read fs (p : path) (b : bytes) fs' :
  write_file fs p b = Some fs' → read_file fs' p = Some b.
Proof.
  intros Hw. unfold read_file. by rewrite (write_file_stat _ _ _ _ Hw).
Qed.

(** Making the directory takes nothing away and changes no entry. *)
Lemma mkdir_subseteq fs (d : path) fs1 :
  mkdir_exist_ok fs d = Some fs1 → fs ⊆ fs1.
Proof.
  unfold mkdir_exist_ok. intros Hm. destruct (walkable fs d); [|done].
  destruct (fs !! resolve d) as [[|c]|] eqn:Hd; simplify_eq; [done|].
  destruct (fs !! parent (resolve d)) as [[|c]|]; simplify_eq.
  by apply insert_subseteq.
Qed.

(** It creates no regular file either. *)
Lemma mkdir_files fs (d : path) fs1 (k : path) (c : bytes) :
  mkdir_exist_ok fs d = Some fs1 → fs1 !! k = Some (File c) →
  fs !! k = Some (File c).
Proof.
  unfold mkdir_exist_ok. intros Hm. destruct (walkable fs d); [|done].
  destruct (fs !! resolve d) as [[|c']|] eqn:Hd; simplify_eq; [done|].
  destruct (fs !! parent (resolve d)) as [[|c']|]; simplify_eq.
  intros Hk. destruct (decide (resolve d = k)) as [<-|Hne].
  - by rewrite lookup_insert_eq in Hk.
  - by rewrite lookup_insert_ne in Hk.
Qed.

(** A write leaves every other path as it was. *)
Lemma write_file_other fs (p q : path) (b : bytes) fs' :
  write_file fs p b = Some fs' → resolve q ≠ resolve p →
  fs' !! resolve q = fs !! resolve q.
Proof.
  intros (Hw & Hnd & Hpar & ->)%write_file_Some Hne. by rewrite lookup_insert_ne.
Qed.

Lemma write_file_not_dir fs (p : path) (b : bytes) fs' :
  write_file fs p b = Some fs' → fs !! resolve p ≠ Some Dir.
Proof. by intros (Hw & Hnd & Hpar & ->)%write_file_Some. Qed.

(** Whatever else was found before a write is found after it, unchanged. *)
Lemma write_file_stat_other fs (p q : path) (b : bytes) fs' (n : node) :
  write_file fs p b = Some fs' → resolve q ≠ resolve p →
  stat fs q = Some n → stat fs' q = Some n.
Proof.
  intros Hw Hne [Hq Hn]%stat_Some. apply stat_Some. split.
  - apply (walkable_dirs_kept fs); [|done]. by eapply write_file_dirs_kept.
  - by rewrite (write_file_other _ _ _ _ _ Hw Hne).
Qed.

(** [img.save] that returned has written the encoding. *)
Lemma image_save_true fs (img : image) (p : path) fs' :
  image_save fs img p = (true, fs') →
  ∃ b, image_save_jpeg img = Some b ∧ write_file fs p b = Some fs'.
Proof.
  unfold image_save. intros Hs.
  destruct (write_file fs p []) as [opened|] eqn:Hopen; [|done].
  destruct (image_save_jpeg img) as [b|]; [|done].
  exists b. split; [done|].
  apply write_file_Some in Hopen as (Hw & Hnd & Hpar & ->).
  apply write_file_Some. injection Hs as <-. by rewrite insert_insert_eq.
Qed.

(** [img.save] that raised has changed nothing, or has emptied the file
    that was at [p]. *)
Lemma image_save_false fs (img : image) (p : path) fs' :
  image_save fs img p = (false, fs') →
  fs' = fs ∨ (path_exists fs p = true ∧ write_file fs p [] = Some fs').
Proof.
  unfold image_save. intros Hs.
  destruct (write_file fs p []) as [opened|] eqn:Hopen; [|left; congruence].
  destruct (image_save_jpeg img) as [b|]; [done|].
  destruct (path_exists fs p) eqn:Hex; [right; split|left]; congruence.
Qed.


Lemma get_safe_image_path_Some fs (filename : string) (img_path : path) :
  get_safe_image_path fs filename = Some img_path →
  img_path = joinpath img_dir filename ∧
  parent (resolve img_path) = resolve img_dir ∧
  path_exists fs img_path = true.
Proof.
  unfold get_safe_image_path. case_bool_decide as Hpar; [done|].
  destruct (path_exists fs (joinpath img_dir filename)) eqn:Hex; [|done].
  intros [= <-]. split; [done|]. split; [|done].
  by destruct (decide (parent (resolve (joinpath img_dir filename))
                       = resolve img_dir)).
Qed.



Lemma send_file_regular fs (p : path) :
  is_file fs p = true → send_file fs p = Returned (SendFile p).
Proof. unfold is_file, send_file. by destruct (stat fs p) as [[|c]|]. Qed.


End Cache.


(** When the encoder raises, the derivative that was there has already
    been opened for writing: it is left empty; the source is as it was. *)
Lemma failed_save_empties_the_derivative :
  let fs := disk cropped_world in
  let square_path := ["app"; "img"; "squared"; "b_square.jpg"] in
  let fs' := (@copy_square_image refusing_platform fs "b.png").2 in
  @read_file refusing_platform fs square_path = Some [2; 2; 7] ∧
  (@copy_square_image refusing_platform fs "b.png").1 = None ∧
  @read_file refusing_platform fs' square_path = Some [] ∧
  @read_file refusing_platform fs' ["app"; "img"; "b.png"] = Some [4; 2; 7].
Proof. vm_compute. repeat split. Qed.

(** A file is looked for along the path as it is written: [x/../a.jpg]
    names [a.jpg] only where [x] is a directory. *)
Lemma missing_directory_on_the_way :
  @resolve demo_platform ["app"; "img"; "x"; ".."; "a.jpg"]
  = ["app"; "img"; "a.jpg"] ∧
  @get_safe_image_path demo_platform demo_disk "x/../a.jpg" = None ∧
  @get_safe_image_path demo_platform (disk started_world) "squared/../a.jpg"
  = Some ["app"; "img"; "squared"; ".."; "a.jpg"].
Proof. vm_compute. repeat split. Qed.

(** A directory passes the tests of [serve_image]; sending it raises. *)
Lemma serve_image_directory_raises :
  @serve_image demo_platform started_world "squared"
  = Raised (OSError "Is a directory").
Proof. vm_compute. reflexivity. Qed.

(** [/app/img_old] is next to [/app/img] under a name that begins with
    its name; [/app/img/squared] and [/app/etc] are not. *)
Lemma beside_examples :
  beside ["app"; "img"] ["app"; "img_old"; "x"] = true ∧
  beside ["app"; "img"] ["app"; "img"; "squared"] = false ∧
  beside ["app"; "img"] ["app"; "etc"] = false ∧
  beside ["app"; "img"] ["etc"] = false.
Proof. vm_compute. repeat split. Qed.



(** * Further properties of the code *)

(** ** check_match: refusals *)

(** X1. A card number outside [0, len(cards)), negative ones included, is
    answered with 400 "Invalid card index" and the session is untouched;
    before the board is dealt that is every call. *)
Theorem check_match_invalid_index (s : session) (card1 card2 : Z) :
  ¬ (0 ≤ card1 < len (session_get (cards s) [])
     ∧ 0 ≤ card2 < len (session_get (cards s) [])) →
  check_match s card1 card2
  = (s, Returned (JsonError "Invalid card index" 400)).
Proof.
  intros Hn. unfold check_match.
  by rewrite (index_guard_true (session_get (cards s) []) card1 card2 Hn).
Qed.

Lemma check_match_invalid_index_witness :
  check_match dealt_session (-1) 0
  = (dealt_session, Returned (JsonError "Invalid card index" 400))
  ∧ check_match cleared 0 0
    = (cleared, Returned (JsonError "Invalid card index" 400)).
Proof.
  split.
  - apply check_match_invalid_index. vm_compute. intros [[Hc _] _]. by apply Hc.
  - apply check_match_invalid_index. vm_compute. intros [[_ Hc] _]. discriminate Hc.
Defined.

(** X2. Two card numbers in range, one of them already in [matched], are
    answered with 400 "Card already matched" and the session is
    untouched. *)
Theorem check_match_already_matched (s : session) (card1 card2 : Z) :
  0 ≤ card1 < len (session_get (cards s) []) →
  0 ≤ card2 < len (session_get (cards s) []) →
  card1 ∈ session_get (matched s) [] ∨ card2 ∈ session_get (matched s) [] →
  check_match s card1 card2
  = (s, Returned (JsonError "Card already matched" 400)).
Proof.
  intros H1 H2 Hin. unfold check_match.
  rewrite (index_guard_false _ card1 card2 H1 H2). unfold py_in.
  destruct Hin as [Hin|Hin].
  - by rewrite (bool_decide_eq_true_2 _ Hin).
  - by rewrite (bool_decide_eq_true_2 _ Hin), orb_true_r.
Qed.

Lemma check_match_already_matched_witness :
  check_match (run_checks dealt_session [(0, 2)]) 1 2
  = (run_checks dealt_session [(0, 2)],
     Returned (JsonError "Card already matched" 400)).
Proof.
  apply check_match_already_matched.
  - vm_compute. split; [intros Hc; discriminate Hc | reflexivity].
  - vm_compute. split; [intros Hc; discriminate Hc | reflexivity].
  - right. vm_compute. apply list_elem_of_In. right. left. reflexivity.
Defined.

(** X3. [check_match] never raises: the guards keep [cards[card]] inside
    the list (a negative number never indexes from the end). Whatever it
    answers, [cards], [all_game_images] and [pending_crops] are as
    before. *)
Theorem check_match_never_raises (s : session) (card1 card2 : Z) :
  ∃ s' r,
    check_match s card1 card2 = (s', Returned r) ∧
    cards s' = cards s ∧
    all_game_images s' = all_game_images s ∧
    pending_crops s' = pending_crops s.
Proof.
  destruct (check_match_returns s card1 card2) as (s' & r & E).
  pose proof (check_match_frame s card1 card2) as (Ha & Hp & Hc).
  rewrite E in Ha, Hp, Hc. exists s', r. done.
Qed.

(** ** check_match: what a run of calls keeps *)

Lemma run_checks_snoc (s : session) (moves : list (Z * Z)) (m : Z * Z) :
  run_checks s (moves ++ [m]) = (check_match (run_checks s moves) m.1 m.2).1.
Proof. unfold run_checks. by rewrite foldl_app. Qed.

Lemma run_checks_frame (s : session) (moves : list (Z * Z)) :
  cards (run_checks s moves) = cards s
  ∧ all_game_images (run_checks s moves) = all_game_images s.
Proof.
  revert s. induction moves as [|m moves IH]; intros s; [done|].
  change (run_checks s (m :: moves))
    with (run_checks (check_match s m.1 m.2).1 moves).
  destruct (IH (check_match s m.1 m.2).1) as [-> ->].
  pose proof (check_match_frame s m.1 m.2) as (Ha & _ & Hc). done.
Qed.

Lemma run_checks_matched_set (s : session) (moves : list (Z * Z)) :
  matched_set s → Forall (λ m, m.1 ≠ m.2) moves →
  matched_set (run_checks s moves).
Proof.
  revert s. induction moves as [|m moves IH]; intros s Hs Hd; [exact Hs|].
  apply Forall_cons in Hd as [Hm Hd]. cbn. apply IH; [|exact Hd].
  by apply check_match_distinct_positions.
Qed.

Lemma matched_set_dealt : matched_set dealt_session.
Proof.
  split; [apply NoDup_nil_2|]. intros p Hp. by apply not_elem_of_nil in Hp.
Qed.

(** X4. From the moment the board is dealt, [len(matched)] is even after
    every run of [check_match] calls, accepted or refused, same position
    twice or not. *)
Theorem matched_even_after_any_run (s : session) (g : rng)
    (moves : list (Z * Z)) :
  Nat.Even (length (session_get
                      (matched (run_checks (setup_card_pairs s g).1 moves)) [])).
Proof.
  apply run_checks_even. unfold setup_card_pairs.
  destruct (shuffle _ g) as [cs g']. cbn. by exists O.
Qed.

Lemma check_match_pairs_counted (s : session) (pos1 pos2 : Z) :
  pairs_counted s → pairs_counted (check_match s pos1 pos2).1.
Proof.
  intros Hc.
  set (cs := session_get (cards s) []). set (ms := session_get (matched s) []).
  destruct (decide (0 ≤ pos1 < len cs ∧ 0 ≤ pos2 < len cs
                    ∧ (pos1 ∉ ms) ∧ (pos2 ∉ ms))) as [(H1 & H2 & Hm1 & Hm2)|Hn].
  - destruct (py_index_in_range cs pos1 H1) as [_ [v1 Hv1]].
    destruct (py_index_in_range cs pos2 H2) as [_ [v2 Hv2]].
    rewrite (check_match_accepted s pos1 pos2 v1 v2 H1 H2 Hm1 Hm2 Hv1 Hv2).
    unfold pairs_counted in *.
    destruct (v1 =? v2); [|exact Hc].
    destruct (session_get (current_player s) 1 =? 1); cbn;
      rewrite !len_app; unfold len in *; cbn; lia.
  - by destruct (check_match_refused s pos1 pos2 Hn) as [msg ->].
Qed.

(** X5. Each accepted match adds two positions to [matched] and one value
    to one player's list: if twice the number of credited pairs equals
    [len(matched)] before a run of calls, it does after. *)
Theorem pairs_counted_after_any_run (s : session) (moves : list (Z * Z)) :
  pairs_counted s → pairs_counted (run_checks s moves).
Proof.
  revert s. induction moves as [|m moves IH]; intros s Hc; [exact Hc|].
  cbn. apply IH. by apply check_match_pairs_counted.
Qed.

Lemma pairs_counted_after_any_run_witness :
  pairs_counted (run_checks dealt_session [(0, 2); (1, 1); (0, 3)]).
Proof. apply pairs_counted_after_any_run. vm_compute. reflexivity. Defined.

(** X6. As long as no call names one position twice, [matched] holds
    distinct positions of the board, whatever else the calls are. *)
Theorem distinct_moves_keep_matched_a_set (s : session)
    (moves : list (Z * Z)) :
  matched_set s → Forall (λ m, m.1 ≠ m.2) moves →
  matched_set (run_checks s moves).
Proof.
  apply run_checks_matched_set.
Qed.

Lemma distinct_moves_keep_matched_a_set_witness :
  matched_set (run_checks dealt_session [(0, 2); (1, 2); (3, 1)]).
Proof.
  apply distinct_moves_keep_matched_a_set.
  - exact matched_set_dealt.
  - repeat (apply Forall_cons; split; [cbn; intros Hc; discriminate Hc|]).
    apply Forall_nil_2.
Defined.

(** X7. With [matched] a set of positions and two different positions
    named, an answer with [game_over = true] means that every position of
    the board is in [matched]. *)
Theorem game_over_means_all_matched (s s' : session) (pos1 pos2 : Z)
    (body : check_body) :
  matched_set s → pos1 ≠ pos2 →
  check_match s pos1 pos2 = (s', Returned (Json body)) →
  resp_game_over body = true →
  ∀ p, 0 ≤ p < len (session_get (cards s) []) → p ∈ resp_matched_indices body.
Proof.
  intros Hs Hne E Hover p Hp.
  destruct (check_match_distinct_positions s pos1 pos2 Hs Hne) as [Hs' Hiff].
  apply (Hiff s' body E) in Hover. rewrite E in Hs'. cbn in Hs'.
  pose proof (check_match_frame s pos1 pos2) as (_ & _ & Hcards).
  rewrite E in Hcards. cbn in Hcards.
  assert (resp_matched_indices body = session_get (matched s') []) as ->.
  { set (cs := session_get (cards s) []).
    set (ms := session_get (matched s) []).
    destruct (decide (0 ≤ pos1 < len cs ∧ 0 ≤ pos2 < len cs
                      ∧ (pos1 ∉ ms) ∧ (pos2 ∉ ms)))
      as [(H1 & H2 & Hm1 & Hm2)|Hn].
    - destruct (py_index_in_range cs pos1 H1) as [_ [v1 Hv1]].
      destruct (py_index_in_range cs pos2 H2) as [_ [v2 Hv2]].
      rewrite (check_match_accepted s pos1 pos2 v1 v2 H1 H2 Hm1 Hm2 Hv1 Hv2)
        in E.
      destruct (v1 =? v2); injection E as <- <-; done.
    - destruct (check_match_refused s pos1 pos2 Hn) as [msg Hr].
      rewrite Hr in E. discriminate E. }
  destruct Hs' as [Hnd Hin]. rewrite Hcards in Hin, Hover.
  assert (session_get (matched s') [] ≡ₚ range (length (session_get (cards s) [])))
    as Hperm.
  { apply submseteq_length_Permutation.
    - apply NoDup_submseteq; [done|]. intros q Hq. by apply range_elem, Hin.
    - rewrite range_length. unfold len in Hover. lia. }
  rewrite Hperm. by apply range_elem.
Qed.

Lemma game_over_means_all_matched_witness : 3 ∈ [0; 2; 1; 3].
Proof.
  apply (game_over_means_all_matched
           (run_checks dealt_session [(0, 2)])
           (run_checks dealt_session [(0, 2); (1, 3)]) 1 3
           (CheckBody true (Some "a.jpg") (Some "a.jpg") 1 2 0 [0; 2; 1; 3] true)).
  - apply run_checks_matched_set; [exact matched_set_dealt|].
    apply Forall_cons; split; [cbn; intros Hc; discriminate Hc|].
    apply Forall_nil_2.
  - intros Hc. discriminate Hc.
  - vm_compute. reflexivity.
  - reflexivity.
  - vm_compute. split; [intros Hc; discriminate Hc | reflexivity].
Defined.

Lemma confirmed_pairs_app (cs ms : list Z) (a b : Z) :
  confirmed_pairs cs ms →
  (∃ v, cs !! Z.to_nat a = Some v ∧ cs !! Z.to_nat b = Some v) →
  confirmed_pairs cs (ms ++ [a; b]).
Proof.
  intros Hms Hab. revert Hms.
  induction ms as [ms IH] using (induction_ltof1 _ (@length Z)).
  unfold ltof in IH. destruct ms as [|x [|y rest]]; cbn; try done.
  intros [Hxy Hrest]. split; [done|]. apply IH; [cbn; lia | done].
Qed.

Lemma check_match_confirmed_pairs (s : session) (pos1 pos2 : Z) :
  confirmed_pairs (session_get (cards s) []) (session_get (matched s) []) →
  confirmed_pairs (session_get (cards s) [])
    (session_get (matched (check_match s pos1 pos2).1) []).
Proof.
  intros Hc.
  set (cs := session_get (cards s) []). set (ms := session_get (matched s) []).
  destruct (decide (0 ≤ pos1 < len cs ∧ 0 ≤ pos2 < len cs
                    ∧ (pos1 ∉ ms) ∧ (pos2 ∉ ms))) as [(H1 & H2 & Hm1 & Hm2)|Hn].
  - destruct (py_index_in_range cs pos1 H1) as [_ [v1 Hv1]].
    destruct (py_index_in_range cs pos2 H2) as [_ [v2 Hv2]].
    rewrite (check_match_accepted s pos1 pos2 v1 v2 H1 H2 Hm1 Hm2 Hv1 Hv2).
    destruct (Z.eqb_spec v1 v2) as [<-|Hne]; [|exact Hc].
    cbn. apply confirmed_pairs_app; [exact Hc|]. by exists v1.
  - by destruct (check_match_refused s pos1 pos2 Hn) as [msg ->].
Qed.

(** X8. [matched] only ever grows by two positions whose cards are equal:
    read two at a time, it lists confirmed pairs before a run of calls only
    if it does after, on the same [cards]. *)
Theorem matched_lists_confirmed_pairs (s : session) (moves : list (Z * Z)) :
  confirmed_pairs (session_get (cards s) []) (session_get (matched s) []) →
  confirmed_pairs (session_get (cards (run_checks s moves)) [])
    (session_get (matched (run_checks s moves)) []).
Proof.
  rewrite (proj1 (run_checks_frame s moves)).
  revert s. induction moves as [|m moves IH]; intros s Hc; [exact Hc|].
  change (run_checks s (m :: moves))
    with (run_checks (check_match s m.1 m.2).1 moves).
  pose proof (check_match_frame s m.1 m.2) as (_ & _ & Hcards).
  rewrite <- Hcards. apply IH. rewrite Hcards.
  by apply check_match_confirmed_pairs.
Qed.

Lemma matched_lists_confirmed_pairs_witness :
  confirmed_pairs
    (session_get (cards (run_checks dealt_session [(0, 1); (1, 3); (2, 2)])) [])
    (session_get (matched (run_checks dealt_session [(0, 1); (1, 3); (2, 2)])) []).
Proof.
  apply (matched_lists_confirmed_pairs dealt_session [(0, 1); (1, 3); (2, 2)]).
  exact I.
Defined.

(** X9. On a dealt board both filenames of an accepted call are there:
    after [setup_card_pairs] and any run of calls, every answer of
    [check_match] with a JSON body carries two names taken from
    [all_game_images], the same name twice when the cards match. *)
Theorem dealt_board_names_both_images (s : session) (g : rng)
    (moves : list (Z * Z)) (pos1 pos2 : Z) (s' : session) (body : check_body) :
  check_match (run_checks (setup_card_pairs s g).1 moves) pos1 pos2
  = (s', Returned (Json body)) →
  ∃ f1 f2,
    resp_image1 body = Some f1 ∧ resp_image2 body = Some f2 ∧
    f1 ∈ session_get (all_game_images s) [] ∧
    f2 ∈ session_get (all_game_images s) [] ∧
    (resp_is_match body = true → f1 = f2).
Proof.
  set (s0 := run_checks (setup_card_pairs s g).1 moves). intros E.
  destruct (setup_card_pairs_frame s g) as (Himg & _).
  destruct (run_checks_frame (setup_card_pairs s g).1 moves) as [Hcards Himgs].
  fold s0 in Hcards, Himgs. rewrite Himg in Himgs.
  assert (∃ cs, cards s0 = Some cs
                ∧ ∀ v, v ∈ cs → 0 ≤ v
                       < len (session_get (all_game_images s) []))
    as (cs & Hcs & Hrange).
  { rewrite Hcards. unfold setup_card_pairs.
    pose proof (shuffle_Permutation
                  (range (length (session_get (all_game_images s) []))
                   ++ range (length (session_get (all_game_images s) []))) g)
      as Hp.
    destruct (shuffle _ g) as [cs g']. cbn in *. exists cs. split; [done|].
    intros v Hv. rewrite Hp in Hv. apply elem_of_app in Hv.
    rewrite range_elem in Hv. unfold len. tauto. }
  assert (∀ v, v ∈ cs → ∃ f, get_card_image s0 v = Some f
                             ∧ f ∈ session_get (all_game_images s) [])
    as Hget.
  { intros v Hv. apply Hrange in Hv. unfold get_card_image. rewrite Himgs.
    destruct (Z.leb_spec 0 v); [|lia].
    destruct (Z.ltb_spec v (len (session_get (all_game_images s) []))); [|lia].
    cbn. destruct (lookup_lt_is_Some_2 (session_get (all_game_images s) [])
                     (Z.to_nat v)) as [f Hf]; [unfold len in *; lia|].
    exists f. split; [done|]. by eapply list_elem_of_lookup_2. }
  set (ms := session_get (matched s0) []).
  assert (session_get (cards s0) [] = cs) as Hcs' by by rewrite Hcs.
  destruct (decide (0 ≤ pos1 < len cs ∧ 0 ≤ pos2 < len cs
                    ∧ (pos1 ∉ ms) ∧ (pos2 ∉ ms))) as [(H1 & H2 & Hm1 & Hm2)|Hn].
  - destruct (py_index_in_range cs pos1 H1) as [_ [v1 Hv1]].
    destruct (py_index_in_range cs pos2 H2) as [_ [v2 Hv2]].
    rewrite <- Hcs' in H1, H2, Hv1, Hv2.
    rewrite (check_match_accepted s0 pos1 pos2 v1 v2 H1 H2 Hm1 Hm2 Hv1 Hv2)
      in E.
    rewrite Hcs' in Hv1, Hv2.
    destruct (Hget v1) as (f1 & Hf1 & Hin1); [by eapply list_elem_of_lookup_2|].
    destruct (Hget v2) as (f2 & Hf2 & Hin2); [by eapply list_elem_of_lookup_2|].
    exists f1, f2.
    destruct (Z.eqb_spec v1 v2) as [Heq|Hne]; injection E as _ <-; cbn.
    + repeat split; try done. intros _. subst v2. congruence.
    + repeat split; try done.
  - rewrite <- Hcs' in Hn.
    destruct (check_match_refused s0 pos1 pos2 Hn) as [msg Hr].
    rewrite Hr in E. discriminate E.
Qed.

Lemma dealt_board_names_both_images_witness :
  ∃ f1 f2, Some "a.jpg" = Some f1 ∧ Some "a.jpg" = Some f2
           ∧ f1 ∈ ["a.jpg"; "b.png"] ∧ f2 ∈ ["a.jpg"; "b.png"]
           ∧ (true = true → f1 = f2).
Proof.
  apply (dealt_board_names_both_images selected_session zero_rng [(0, 2)] 1 3
           (run_checks dealt_session [(0, 2); (1, 3)])
           (CheckBody true (Some "a.jpg") (Some "a.jpg") 1 2 0 [0; 2; 1; 3] true)).
  vm_compute. reflexivity.
Defined.

(** ** The crop service *)

Section Normalizer.
Context `{Platform}.

Implicit Types fs : gmap path node.

(** X10. The square [get_largest_square_dimensions] suggests lies inside
    the picture: its side is the smaller dimension, its offsets are not
    negative, it ends within width and height, it starts at 0 along the
    smaller dimension, and the margins on the two sides of the larger one
    differ by at most one pixel. *)
Theorem largest_square_fits fs (filename : string) (size x y : Z) :
  get_largest_square_dimensions fs filename = Some (size, x, y) →
  ∃ w h,
    get_image_dimensions fs filename = Some (w, h) ∧
    size = Z.min w h ∧
    0 ≤ x ∧ 0 ≤ y ∧ x + size ≤ w ∧ y + size ≤ h ∧
    (x = 0 ∨ y = 0) ∧
    0 ≤ (w - size - x) - x ≤ 1 ∧ 0 ≤ (h - size - y) - y ≤ 1.
Proof.
  unfold get_largest_square_dimensions. intros Hl.
  destruct (get_image_dimensions fs filename) as [[w h]|]; [|done].
  injection Hl as <- <- <-. exists w, h. split; [done|]. split; [done|].
  pose proof (Z.div_mod (w - Z.min w h) 2 ltac:(lia)) as Hx.
  pose proof (Z.mod_pos_bound (w - Z.min w h) 2 ltac:(lia)) as Hxm.
  pose proof (Z.div_mod (h - Z.min w h) 2 ltac:(lia)) as Hy.
  pose proof (Z.mod_pos_bound (h - Z.min w h) 2 ltac:(lia)) as Hym.
  assert (w - Z.min w h = 0 ∨ h - Z.min w h = 0) as [Hz|Hz] by lia.
  - rewrite Hz in *. cbn in *. lia.
  - rewrite Hz in *. cbn in *. lia.
Qed.

(** X11. For a picture that [is_square_image] accepts, the suggested crop
    is the whole picture: side [w], offsets 0. A file that cannot be read
    is not square. *)
Theorem square_image_is_its_own_crop fs (filename : string) :
  is_square_image fs filename = true →
  ∃ w, get_image_dimensions fs filename = Some (w, w)
       ∧ get_largest_square_dimensions fs filename = Some (w, 0, 0).
Proof.
  unfold is_square_image, get_largest_square_dimensions.
  destruct (get_image_dimensions fs filename) as [[w h]|]; [|done].
  intros ->%Z.eqb_eq. exists h. rewrite Z.min_id, Z.sub_diag. done.
Qed.

(** What a successful [save_cropped_image] went through. *)
Lemma save_cropped_image_Some fs (filename : string) (crop_box : gmap string Z)
    (square_filename : string) fs' :
  save_cropped_image fs filename crop_box = (Some square_filename, fs') →
  ∃ img_path src decoded x y size cropped b,
    get_safe_image_path fs filename = Some img_path ∧
    read_file fs img_path = Some src ∧
    image_open src = Some decoded ∧
    crop_box !! "x" = Some x ∧ crop_box !! "y" = Some y ∧
    crop_box !! "size" = Some size ∧
    image_crop decoded x y (x + size) (y + size) = Some cropped ∧
    image_save_jpeg cropped = Some b ∧
    square_filename = stem img_path +:+ "_square.jpg" ∧
    read_file fs' (joinpath (joinpath (parent img_path) "squared")
                     square_filename) = Some b.
Proof.
  unfold save_cropped_image, _load_and_rotate. intros Hs.
  destruct (get_safe_image_path fs filename) as [img_path|]; [|done].
  destruct (read_file fs img_path) as [src|] eqn:Hsrc;
    cbn [mbind option_bind] in Hs; [|done].
  destruct (image_open src) as [decoded|] eqn:Hopen; [|done].
  destruct (crop_box !! "x") as [x|]; [|done].
  destruct (crop_box !! "y") as [y|]; [|done].
  destruct (crop_box !! "size") as [size|]; [|done].
  destruct (image_crop decoded x y (x + size) (y + size)) as [cropped|] eqn:Hcrop;
    [|done].
  destruct (mkdir_exist_ok fs _) as [fs1|]; [|done].
  destruct (image_save fs1 cropped _) as [[|] fs2] eqn:Hsave; [|done].
  apply image_save_true in Hsave as (b & Hsave & Hw).
  injection Hs as <- <-.
  exists img_path, src, decoded, x, y, size, cropped, b.
  repeat split; try done. exact (write_file_read _ _ _ _ Hw).
Qed.

End Normalizer.

Lemma largest_square_fits_witness :
  ∃ w h,
    @get_image_dimensions demo_platform demo_disk "b.png" = Some (w, h) ∧
    2 = Z.min w h ∧ 0 ≤ 1 ∧ 0 ≤ 0 ∧ 1 + 2 ≤ w ∧ 0 + 2 ≤ h ∧ (1 = 0 ∨ 0 = 0) ∧
    0 ≤ (w - 2 - 1) - 1 ≤ 1 ∧ 0 ≤ (h - 2 - 0) - 0 ≤ 1.
Proof.
  apply (@largest_square_fits demo_platform demo_disk "b.png" 2 1 0).
  vm_compute. reflexivity.
Defined.

Lemma square_image_is_its_own_crop_witness :
  ∃ w, @get_image_dimensions demo_platform demo_disk "a.jpg" = Some (w, w)
       ∧ @get_largest_square_dimensions demo_platform demo_disk "a.jpg"
         = Some (w, 0, 0).
Proof.
  apply (@square_image_is_its_own_crop demo_platform demo_disk "a.jpg").
  vm_compute. reflexivity.
Defined.

(** ** Names of derivatives *)

Lemma rfind_None_split (c : ascii) (s : string) :
  rfind c s = None → split_on c s = [s].
Proof.
  induction s as [|a s IH]; [done|]. cbn.
  destruct (rfind c s) as [i|]; [done|].
  destruct (Ascii.eqb a c); [done|]. intros _. by rewrite IH.
Qed.

Lemma rfind_None_relative (s : string) :
  rfind "/" s = None → String.prefix "/" s = false.
Proof.
  destruct s as [|a s]; [done|]. intros Hr.
  assert (a ≠ "/"%char) as Hne.
  { intros ->. cbn in Hr. by destruct (rfind "/" s). }
  cbn [String.prefix]. destruct (ascii_dec "/" a) as [Heq|_]; [|done].
  by destruct Hne.
Qed.

Lemma name_snoc (d : path) (f : string) : name (d ++ [f]) = f.
Proof. unfold name. by rewrite last_snoc. Qed.

Lemma parent_snoc (d : path) (f : string) : parent (d ++ [f]) = d.
Proof. apply removelast_last. Qed.

(** A name without [/] and with a suffix is one path component, and
    [Path.stem] cuts it where [rsplit('.', 1)] does. *)
Lemma plain_filename (d : path) (f : string) :
  rfind "/" f = None → suffix [f] ≠ "" →
  joinpath d f = d ++ [f] ∧ stem (d ++ [f]) = name_without_ext f.
Proof.
  intros Hslash Hsuffix. split.
  - unfold joinpath, components.
    rewrite (rfind_None_relative f Hslash), (rfind_None_split "/" f Hslash).
    cbn. case_decide as Hf; [done|]. exfalso. apply Hsuffix.
    destruct (decide (f = "")) as [->|]; [done|].
    destruct (decide (f = ".")) as [->|]; [done|]. tauto.
  - unfold stem, name_without_ext. rewrite name_snoc.
    unfold suffix in Hsuffix. change (name [f]) with f in Hsuffix.
    destruct (rfind "." f) as [i|]; [|done].
    by destruct ((0 <? i)%nat && (i <? String.length f - 1)%nat).
Qed.

Section Derivatives.
Context `{Platform}.

Implicit Types fs : gmap path node.

Lemma write_file_exists fs (p : path) (b : bytes) fs' :
  write_file fs p b = Some fs' → path_exists fs' p = true.
Proof.
  intros Hw. apply path_exists_stat. by rewrite (write_file_stat _ _ _ _ Hw).
Qed.

Lemma read_file_exists fs (p : path) (b : bytes) :
  read_file fs p = Some b → path_exists fs p = true.
Proof.
  unfold read_file. rewrite path_exists_stat. by destruct (stat fs p).
Qed.

Lemma read_file_is_file fs (p : path) (b : bytes) :
  read_file fs p = Some b → is_file fs p = true.
Proof. unfold read_file, is_file. by destruct (stat fs p) as [[|c]|]. Qed.

(** X12. A crop box that lacks [x], [y] or [size] writes nothing: for a
    file that is there, [save_cropped_image] returns [None] with the disk
    as it was, and [save_crop] answers 400 "Crop failed" with the world as
    it was. *)
Theorem save_crop_missing_coordinate (w : world) (filename : string)
    (crop_box : gmap string Z) :
  filename ≠ "" → crop_box ≠ ∅ →
  is_Some (get_safe_image_path (disk w) filename) →
  crop_box !! "x" = None ∨ crop_box !! "y" = None ∨ crop_box !! "size" = None →
  save_cropped_image (disk w) filename crop_box = (None, disk w) ∧
  save_crop w (Some filename) (Some crop_box)
  = (w, Returned (JsonError "Crop failed" 400)).
Proof.
  intros Hf Hb [p Hp] Hmiss.
  assert (save_cropped_image (disk w) filename crop_box = (None, disk w)) as Hs.
  { unfold save_cropped_image. rewrite Hp.
    destruct (_load_and_rotate (disk w) p); [|done].
    destruct Hmiss as [-> | [-> | ->]]; [done| |].
    - by destruct (crop_box !! "x").
    - by destruct (crop_box !! "x"), (crop_box !! "y"). }
  split; [exact Hs|]. unfold save_crop.
  rewrite (bool_decide_eq_false_2 _ Hf), (bool_decide_eq_false_2 _ Hb). cbn.
  rewrite Hp, Hs. rewrite bool_decide_eq_true_2 by by left. by destruct w.
Qed.

(** X13. When [save_cropped_image] returns a name, the name is
    [<stem>_square.jpg], and the file of that name under [squared/] holds
    the JPEG encoding of the decoded source cropped to the box
    [(x, y, x + size, y + size)], whatever was there before. *)
Theorem save_cropped_image_writes_the_crop fs (filename : string)
    (crop_box : gmap string Z) (square_filename : string) fs' :
  save_cropped_image fs filename crop_box = (Some square_filename, fs') →
  ∃ img_path src decoded x y size cropped b,
    get_safe_image_path fs filename = Some img_path ∧
    read_file fs img_path = Some src ∧
    image_open src = Some decoded ∧
    crop_box !! "x" = Some x ∧ crop_box !! "y" = Some y ∧
    crop_box !! "size" = Some size ∧
    image_crop decoded x y (x + size) (y + size) = Some cropped ∧
    image_save_jpeg cropped = Some b ∧
    square_filename = stem img_path +:+ "_square.jpg" ∧
    read_file fs' (joinpath (joinpath (parent img_path) "squared")
                     square_filename) = Some b.
Proof. apply save_cropped_image_Some. Qed.

(** The crop that [save_cropped_image] has written is a regular file
    where [game.py] looks for derivatives. *)
Lemma save_cropped_image_derivative fs (filename : string)
    (crop_box : gmap string Z) (square : string) fs' :
  rfind "/" filename = None → suffix [filename] ≠ "" →
  save_cropped_image fs filename crop_box = (Some square, fs') →
  square = name_without_ext filename +:+ "_square.jpg" ∧
  ∃ b, read_file fs' (_get_cropped_version_path filename) = Some b.
Proof.
  intros Hslash Hsuffix Hs.
  destruct (plain_filename img_dir filename Hslash Hsuffix) as [Hjoin Hstem].
  unfold _get_cropped_version_path.
  apply save_cropped_image_Some in Hs
    as (p & src & dec & x & y & size & cr & b & Hp & _ & _ & _ & _ & _ & _ & _
        & -> & Hread).
  apply get_safe_image_path_Some in Hp as (-> & _ & _).
  rewrite Hjoin, parent_snoc, Hstem in *. eauto.
Qed.

(** The derivative that a successful call of the crop service leaves is
    where [game.py] looks for it. *)
Lemma derivative_where_expected fs (filename : string) (square : string) fs' :
  rfind "/" filename = None → suffix [filename] ≠ "" →
  (∃ crop_box, save_cropped_image fs filename crop_box = (Some square, fs'))
  ∨ copy_square_image fs filename = (Some square, fs') →
  square = name_without_ext filename +:+ "_square.jpg" ∧
  path_exists fs' (_get_cropped_version_path filename) = true.
Proof.
  intros Hslash Hsuffix Hdone.
  destruct (plain_filename img_dir filename Hslash Hsuffix) as [Hjoin Hstem].
  destruct Hdone as [[crop_box Hs]|Hc].
  - destruct (save_cropped_image_derivative _ _ _ _ _ Hslash Hsuffix Hs)
      as [-> [b Hb]].
    split; [done|]. by eapply read_file_exists.
  - unfold _get_cropped_version_path.
    unfold copy_square_image, get_safe_image_path in Hc. rewrite Hjoin in Hc.
    case_bool_decide; [done|].
    destruct (path_exists fs (img_dir ++ [filename])); [|done].
    rewrite parent_snoc, Hstem in Hc.
    set (sq := joinpath (joinpath img_dir "squared")
                 (name_without_ext filename +:+ "_square.jpg")) in *.
    destruct (mkdir_exist_ok fs _) as [fs1|]; [|done].
    case_bool_decide.
    + unfold copy2 in Hc. destruct (is_dir fs1 sq) eqn:Hdir.
      * case_bool_decide; [done|].
        destruct (read_file fs1 _) as [src|]; cbn [mbind option_bind] in Hc;
          [|done].
        destruct (write_file fs1 _ src) as [fs2|] eqn:Hw; [|done].
        injection Hc as <- <-. split; [done|].
        apply path_exists_stat. unfold is_dir in Hdir.
        destruct (stat fs1 sq) as [[|c]|] eqn:Hsq; try done.
        rewrite (write_file_stat_other _ _ sq _ _ Dir Hw); [done| |done].
        intros Heq. apply (write_file_not_dir _ _ _ _ Hw). rewrite <- Heq.
        by apply stat_Some in Hsq as [_ Hsq].
      * case_bool_decide; [done|].
        destruct (read_file fs1 _) as [src|]; cbn [mbind option_bind] in Hc;
          [|done].
        destruct (write_file fs1 sq src) as [fs2|] eqn:Hw; [|done].
        injection Hc as <- <-. split; [done|]. by eapply write_file_exists.
    + destruct (_load_and_rotate fs1 _) as [img|]; [|done].
      destruct (image_save fs1 img sq) as [[|] fs2] eqn:Hsave; [|done].
      apply image_save_true in Hsave as (b & _ & Hw).
      injection Hc as <- <-. split; [done|]. by eapply write_file_exists.
Qed.

(** X14. The two modules agree on where a derivative lives. For a
    filename without [/] and with a suffix, once [save_cropped_image] or
    [copy_square_image] has returned a name, [_has_cropped_version] is
    true, the display filename is [squared/] followed by that name, and the
    loop of [init_game_state] skips the image instead of queueing it. *)
Theorem derivative_is_found_again fs (filename : string) (square : string) fs'
    (rest pending : list string) :
  rfind "/" filename = None → suffix [filename] ≠ "" →
  (∃ crop_box, save_cropped_image fs filename crop_box = (Some square, fs'))
  ∨ copy_square_image fs filename = (Some square, fs') →
  _has_cropped_version fs' filename = true ∧
  _get_display_filename fs' filename = "squared/" +:+ square ∧
  scan_selected fs' (filename :: rest) pending = scan_selected fs' rest pending.
Proof.
  intros Hslash Hsuffix Hdone.
  destruct (derivative_where_expected fs filename square fs' Hslash Hsuffix Hdone)
    as [-> Hex].
  unfold _get_display_filename. cbn [scan_selected].
  unfold _has_cropped_version. by rewrite Hex.
Qed.

(** X15. After a crop, [serve_image] sends the derivative and not the
    original: for a filename without [/] and with a suffix, once
    [save_cropped_image] has returned, a request for the filename is
    answered with the file under [squared/], provided the directory of
    that file resolves to a place under the image root. *)
Theorem serve_image_after_crop (w : world) (filename : string)
    (crop_box : gmap string Z) (square : string) fs' :
  rfind "/" filename = None → suffix [filename] ≠ "" →
  save_cropped_image (disk w) filename crop_box = (Some square, fs') →
  String.prefix (as_posix (resolve img_dir))
    (as_posix (parent (resolve (_get_cropped_version_path filename)))) = true →
  serve_image (World (sess w) fs' (gen w)) filename
  = Returned (SendFile (joinpath (joinpath img_dir "squared") square)).
Proof.
  intros Hslash Hsuffix Hs Hprefix.
  destruct (save_cropped_image_derivative _ _ _ _ _ Hslash Hsuffix Hs)
    as [-> [b Hb]].
  unfold serve_image. cbn [disk].
  rewrite (read_file_exists _ _ _ Hb), Hprefix. cbn [negb].
  apply send_file_regular. by eapply read_file_is_file.
Qed.

End Derivatives.

Lemma save_crop_missing_coordinate_witness :
  @save_crop demo_platform (World selected_session demo_disk zero_rng)
    (Some "b.png") (Some (<["y" := 0]> (<["x" := 1]> ∅)))
  = (World selected_session demo_disk zero_rng,
     Returned (JsonError "Crop failed" 400)).
Proof.
  apply (@save_crop_missing_coordinate demo_platform
           (World selected_session demo_disk zero_rng) "b.png"
           (<["y" := 0]> (<["x" := 1]> ∅))).
  - intros Hc. discriminate Hc.
  - intros Hc. apply (f_equal (λ m : gmap string Z, m !! "x")) in Hc.
    vm_compute in Hc. discriminate Hc.
  - exists ["app"; "img"; "b.png"]. vm_compute. reflexivity.
  - right. right. vm_compute. reflexivity.
Defined.

Lemma save_cropped_image_writes_the_crop_witness :
  ∃ b, @read_file demo_platform
         (@save_cropped_image demo_platform demo_disk "b.png" demo_box).2
         ["app"; "img"; "squared"; "b_square.jpg"] = Some b.
Proof.
  destruct (@save_cropped_image_writes_the_crop demo_platform demo_disk "b.png"
              demo_box "b_square.jpg"
              (@save_cropped_image demo_platform demo_disk "b.png" demo_box).2)
    as (img_path & src & dec & x & y & size & cr & b & Hp & _ & _ & _ & _ & _
        & _ & _ & _ & Hread).
  - rewrite (surjective_pairing (@save_cropped_image demo_platform demo_disk
                                    "b.png" demo_box)) at 1.
    f_equal; vm_compute; reflexivity.
  - exists b. vm_compute in Hp. injection Hp as <-. exact Hread.
Defined.

Lemma derivative_is_found_again_witness :
  @_has_cropped_version demo_platform
    (@save_cropped_image demo_platform demo_disk "b.png" demo_box).2 "b.png"
  = true.
Proof.
  apply (@derivative_is_found_again demo_platform demo_disk "b.png"
           "b_square.jpg"
           (@save_cropped_image demo_platform demo_disk "b.png" demo_box).2
           [] []).
  - reflexivity.
  - intros Hc. discriminate Hc.
  - left. exists demo_box.
    rewrite (surjective_pairing (@save_cropped_image demo_platform demo_disk
                                    "b.png" demo_box)) at 1.
    f_equal; vm_compute; reflexivity.
Defined.

Lemma serve_image_after_crop_witness :
  @serve_image demo_platform
    (World selected_session
       (@save_cropped_image demo_platform demo_disk "b.png" demo_box).2
       zero_rng) "b.png"
  = Returned
      (SendFile (joinpath (joinpath ["app"; "img"] "squared") "b_square.jpg")).
Proof.
  apply (@serve_image_after_crop demo_platform
           (World selected_session demo_disk zero_rng) "b.png" demo_box
           "b_square.jpg").
  - reflexivity.
  - intros Hc. discriminate Hc.
  - cbn [disk].
    rewrite (surjective_pairing (@save_cropped_image demo_platform demo_disk
                                    "b.png" demo_box)) at 1.
    f_equal; vm_compute; reflexivity.
  - vm_compute. reflexivity.
Defined.

(** ** Listing and selecting the images *)

Lemma insert_cons_Permutation {A} (l : list A) (j : nat) (a b : A) :
  l !! j = Some a → a :: <[j:=b]> l ≡ₚ b :: l.
Proof.
  intros Hj.
  exact (Permutation_insert_swap (b :: l) 0 (S j) b a eq_refl Hj).
Qed.

Lemma randbelow_lt (n : nat) (g : rng) : (0 < n)%nat → ((randbelow n g).1 < n)%nat.
Proof. intros Hn. cbn. apply Nat.mod_upper_bound. lia. Qed.

(** The pool loop draws [k] elements of the first [n] of the pool, none of
    them twice. *)
Lemma sample_pool_spec {A} (k : nat) (pool : list A) (n : nat) (g : rng) :
  (k ≤ n)%nat → (n ≤ length pool)%nat →
  length (sample_pool k pool n g).1 = k
  ∧ (sample_pool k pool n g).1 ⊆+ take n pool.
Proof.
  revert pool n g. induction k as [|k IH]; intros pool n g Hk Hn.
  { split; [done|]. apply submseteq_nil_l. }
  cbn [sample_pool].
  pose proof (randbelow_lt n g ltac:(lia)) as Hj.
  destruct (randbelow n g) as [j g']. cbn in Hj.
  destruct (lookup_lt_is_Some_2 pool j ltac:(lia)) as [a Ha].
  destruct (lookup_lt_is_Some_2 pool (n - 1) ltac:(lia)) as [b Hb].
  rewrite Ha, Hb.
  destruct (IH (<[j:=b]> pool) (n - 1)%nat g' ltac:(lia))
    as [Hlen Hsub]; [rewrite length_insert; lia|].
  destruct (sample_pool k (<[j:=b]> pool) (n - 1) g') as [rest g''].
  cbn in *. split; [lia|].
  assert (a :: take (n - 1) (<[j:=b]> pool) ≡ₚ take n pool) as <-.
  { replace n with (S (n - 1)) at 2 by lia. rewrite (take_S_r _ _ b Hb).
    destruct (decide (j = (n - 1)%nat)) as [->|Hne].
    - rewrite list_insert_id by done. assert (a = b) as -> by congruence.
      apply Permutation_cons_append.
    - rewrite take_insert_lt by lia.
      rewrite (insert_cons_Permutation (take (n - 1) pool) j a b).
      + apply Permutation_cons_append.
      + rewrite lookup_take_lt by lia. done. }
  by apply submseteq_skip.
Qed.

Lemma path_parent_name (p : path) : p ≠ [] → p = parent p ++ [name p].
Proof.
  intros Hp. unfold parent, name.
  destruct (exists_last Hp) as (d & f & ->).
  by rewrite removelast_last, last_snoc.
Qed.

Section Catalog.
Context `{Platform}.

Implicit Types fs : gmap path node.

(** The entries of a directory have different names. *)
Lemma iterdir_names_NoDup fs (d : path) (entries : list path) :
  iterdir fs d = Returned entries → NoDup (name <$> entries).
Proof.
  unfold iterdir. destruct (stat fs d) as [[|c]|]; try done.
  intros [= <-]. rewrite <- list_fmap_compose.
  apply NoDup_fmap_2_strong.
  - intros [k1 n1] [k2 n2] [H1 Hin1]%list_elem_of_filter
      [H2 Hin2]%list_elem_of_filter Heq.
    unfold compose in Heq. cbn [fst] in *. rewrite !name_snoc in Heq.
    destruct H1 as [Hne1 Hp1], H2 as [Hne2 Hp2].
    assert (k1 = k2) as ->.
    { rewrite (path_parent_name k1 Hne1), (path_parent_name k2 Hne2).
      by rewrite Hp1, Hp2, Heq. }
    f_equal. apply elem_of_map_to_list in Hin1, Hin2. congruence.
  - apply NoDup_filter, NoDup_map_to_list.
Qed.

Lemma image_files_names_NoDup fs (files : list path) :
  _get_image_files fs = Returned files → NoDup (name <$> files).
Proof.
  unfold _get_image_files. destruct (negb _); [intros [= <-]; constructor|].
  destruct (iterdir fs img_dir) as [entries|e] eqn:Hit; [|done].
  intros [= <-]. eapply sublist_NoDup; [by eapply iterdir_names_NoDup|].
  apply fmap_sublist, sublist_filter.
Qed.

(** X16. What [_get_image_files] lists: nothing when the image directory
    is missing; otherwise only regular files that lie directly in the
    image directory and end in one of the five image suffixes, upper or
    lower case, so never the [squared] folder, and no name twice. It
    raises only when the image directory exists without being a
    directory. *)
Theorem image_files_listing fs :
  match _get_image_files fs with
  | Returned files =>
      (path_exists fs img_dir = false → files = []) ∧
      NoDup (name <$> files) ∧
      ∀ f, f ∈ files →
        parent f = img_dir ∧ is_file fs f = true ∧ is_dir fs f = false ∧
        lower (suffix f) ∈ img_extensions
  | Raised e => path_exists fs img_dir = true ∧ is_dir fs img_dir = false
  end.
Proof.
  pose proof (image_files_names_NoDup fs) as Hnd. unfold _get_image_files in *.
  destruct (path_exists fs img_dir) eqn:Hex; cbn [negb] in *.
  - unfold iterdir in *. unfold is_dir. apply path_exists_stat in Hex.
    destruct (stat fs img_dir) as [[|c]|] eqn:Hd; try done;
      try by destruct Hex.
    split; [done|]. split; [by apply Hnd|].
    intros f [[Hfile Hsuf] Hin]%list_elem_of_filter.
    apply list_elem_of_fmap in Hin as (e & -> & _).
    rewrite parent_snoc. repeat split; try done.
    unfold is_file, is_dir in *.
    by destruct (stat fs (img_dir ++ [name e.1])) as [[|c]|].
  - split; [done|]. split; [constructor|]. intros f Hf.
    by apply not_elem_of_nil in Hf.
Qed.

(** What [_get_k_random_images] returns for a [k] that is not negative. *)
Lemma k_random_images_returns fs (k : Z) (g : rng)
    (files : list path) :
  _get_image_files fs = Returned files → 0 ≤ k →
  ∃ names g',
    _get_k_random_images fs k g = (Returned names, g') ∧
    len names = Z.min (len files) k ∧
    names ⊆+ name <$> files ∧
    NoDup names.
Proof.
  intros Hfiles Hk. unfold _get_k_random_images. rewrite Hfiles.
  pose proof (image_files_names_NoDup fs files Hfiles) as Hnd.
  destruct (Z.leb_spec (len files) k) as [Hle|Hgt].
  - exists (name <$> files), g. split; [done|]. unfold len in *.
    rewrite length_fmap. split; [lia|]. done.
  - unfold sample. destruct (Z.leb_spec 0 k); [|lia].
    destruct (Z.leb_spec k (len files)); [|lia]. cbn [andb].
    destruct (sample_pool_spec (Z.to_nat k) files (length files) g)
      as [Hlen Hsub]; [unfold len in *; lia | done |].
    destruct (sample_pool (Z.to_nat k) files (length files) g) as [sel g'].
    cbn in *. rewrite take_ge in Hsub by done.
    exists (name <$> sel), g'. split; [done|].
    assert (name <$> sel ⊆+ name <$> files) as Hnames by by apply fmap_submseteq.
    unfold len in *. rewrite length_fmap. split; [lia|]. split; [done|].
    apply submseteq_Permutation in Hnames as [rest Hperm].
    rewrite Hperm in Hnd. by apply NoDup_app in Hnd as [? _].
Qed.


(** X17. With [k] not negative, [_get_k_random_images(k)] raises nothing
    and returns exactly [min(n, k)] names out of the [n] listed ones, no
    listed file more than once. *)
Theorem k_random_images_size_and_distinct fs (k : Z) (g : rng)
    (files : list path) :
  _get_image_files fs = Returned files → 0 ≤ k →
  ∃ names g',
    _get_k_random_images fs k g = (Returned names, g') ∧
    len names = Z.min (len files) k ∧
    names ⊆+ name <$> files ∧
    NoDup names.
Proof. apply k_random_images_returns. Qed.

End Catalog.

Lemma k_random_images_size_and_distinct_witness :
  ∃ names g',
    @_get_k_random_images demo_platform demo_disk 1 zero_rng
    = (Returned names, g') ∧
    len names = Z.min (len [["app"; "img"; "a.jpg"]; ["app"; "img"; "b.png"]]) 1 ∧
    names ⊆+ name <$> [["app"; "img"; "a.jpg"]; ["app"; "img"; "b.png"]] ∧
    NoDup names.
Proof.
  apply (@k_random_images_size_and_distinct demo_platform demo_disk 1 zero_rng
           [["app"; "img"; "a.jpg"]; ["app"; "img"; "b.png"]]).
  - vm_compute. reflexivity.
  - vm_compute. intros Hc. discriminate Hc.
Defined.

(** ** What every reachable world satisfies *)

Lemma py_remove_sublist `{EqDecision A} (x : A) (l l' : list A) :
  py_remove x l = Some l' → l' `sublist_of` l ∧ l ≡ₚ x :: l'.
Proof.
  revert l'. induction l as [|y t IH]; intros l'; [done|]. cbn.
  destruct (decide (x = y)) as [->|Hne].
  - intros [= <-]. split; [by apply sublist_cons|done].
  - destruct (py_remove x t) as [t'|]; [|done]. intros [= <-].
    destruct (IH t' eq_refl) as [Hs Hp]. split; [by apply sublist_skip|].
    rewrite Hp. apply Permutation_swap.
Qed.

Lemma py_remove_elem `{EqDecision A} (x : A) (l : list A) :
  x ∈ l → is_Some (py_remove x l).
Proof.
  induction l as [|y t IH]; [by intros ?%not_elem_of_nil|]. cbn.
  destruct (decide (x = y)); [eauto|].
  intros [?|Hin]%elem_of_cons; [done|]. destruct (IH Hin) as [t' ->]. eauto.
Qed.

Section Invariant.
Context `{Platform}.

Implicit Types fs : gmap path node.

(** The loop of [init_game_state] appends to the pending list, and what
    it appends are selected names in their order. *)
Lemma scan_selected_pending fs (selected pending : list string) :
  ∃ extra, (scan_selected fs selected pending).1 = pending ++ extra
           ∧ extra `sublist_of` selected.
Proof.
  revert fs pending. induction selected as [|img rest IH]; intros fs pending.
  { exists []. by rewrite app_nil_r. }
  cbn [scan_selected]. destruct (negb _).
  - destruct (is_square_image fs img).
    + destruct (IH (copy_square_image fs img).2 pending) as (extra & -> & Hs).
      exists extra. split; [done|]. by apply sublist_cons.
    + destruct (IH fs (pending ++ [img])) as (extra & -> & Hs).
      exists (img :: extra). split; [by rewrite <- app_assoc|].
      by apply sublist_skip.
  - destruct (IH fs pending) as (extra & -> & Hs).
    exists extra. split; [done|]. by apply sublist_cons.
Qed.

Lemma k_random_images_NoDup fs (k : Z) (g g' : rng) (names : list string) :
  _get_k_random_images fs k g = (Returned names, g') → NoDup names.
Proof.
  unfold _get_k_random_images.
  destruct (_get_image_files fs) as [files|e] eqn:Hfiles; [|done].
  pose proof (image_files_names_NoDup fs files Hfiles) as Hnd.
  destruct (len files <=? k); [by intros [= <- _]|].
  unfold sample. destruct (Z.leb_spec 0 k) as [Hk|]; [|done].
  destruct (Z.leb_spec k (len files)) as [Hle|]; [|done]. cbn [andb].
  destruct (sample_pool_spec (Z.to_nat k) files (length files) g)
    as [_ Hsub]; [unfold len in *; lia | done |].
  destruct (sample_pool (Z.to_nat k) files (length files) g) as [sel g''].
  cbn in Hsub. rewrite take_ge in Hsub by done. intros [= <- _].
  apply (fmap_submseteq name) in Hsub.
  apply submseteq_Permutation in Hsub as [rest Hperm].
  rewrite Hperm in Hnd. by apply NoDup_app in Hnd as [? _].
Qed.

(** A session whose play state is fresh satisfies the invariant as soon
    as its names are distinct and its queue is among them. *)
Ltac fresh_session_inv :=
  unfold session_inv; cbn;
  split; [by left|];
  split; [done || constructor|];
  split; [done || constructor|];
  split; [intros ? Hin; by apply not_elem_of_nil in Hin|];
  split; [by exists O|];
  intros ? Hin; by apply not_elem_of_nil in Hin.

Lemma session_inv_cleared : session_inv cleared.
Proof. fresh_session_inv. Qed.

Lemma session_inv_fresh (images pending : list string) :
  NoDup images → pending `sublist_of` images →
  session_inv (Session (Some images) (Some pending) (Some []) (Some [])
                 (Some 1) (Some []) (Some [])).
Proof. intros Hnd Hsub. fresh_session_inv. Qed.

Lemma init_game_state_inv (w : world) :
  session_inv (sess w) → session_inv (sess (init_game_state w).1).
Proof.
  intros Hs. unfold init_game_state.
  destruct (_get_k_random_images _ _ _) as [[sel|e] g] eqn:Hsel; [|done].
  destruct (scan_selected_pending (disk w) sel []) as (extra & Hp & Hsub).
  destruct (scan_selected (disk w) sel []) as [pending fs]. cbn in *.
  subst pending. apply session_inv_fresh; [|done].
  by eapply k_random_images_NoDup.
Qed.

Lemma deal_inv (w : world) : session_inv (sess w) → session_inv (sess (deal w)).
Proof.
  intros (_ & Hnd & Hsub & _ & _ & Hval). destruct (deal_frame w) as [-> _].
  pose proof (setup_card_pairs_frame (sess w) (gen w))
    as (Ha & Hp & _ & Hm & _ & Hp1 & Hp2).
  unfold session_inv. rewrite Ha, Hp, Hm, Hp1, Hp2.
  split; [|split; [done|split; [done|split; [|split; [by exists O|done]]]]].
  - right. unfold setup_card_pairs.
    pose proof (shuffle_Permutation
                  (range (length (session_get (all_game_images (sess w)) []))
                   ++ range (length (session_get (all_game_images (sess w)) [])))
                  (gen w)) as Hperm.
    by destruct (shuffle _ (gen w)) as [cs g'].
  - intros p Hp'. by apply not_elem_of_nil in Hp'.
Qed.

Lemma check_match_inv (s : session) (pos1 pos2 : Z) :
  session_inv s → session_inv (check_match s pos1 pos2).1.
Proof.
  intros Hs.
  set (cs := session_get (cards s) []). set (ms := session_get (matched s) []).
  destruct (decide (0 ≤ pos1 < len cs ∧ 0 ≤ pos2 < len cs
                    ∧ (pos1 ∉ ms) ∧ (pos2 ∉ ms))) as [(H1 & H2 & Hm1 & Hm2)|Hn];
    [|by destruct (check_match_refused s pos1 pos2 Hn) as [msg ->]].
  destruct (py_index_in_range cs pos1 H1) as [_ [v1 Hv1]].
  destruct (py_index_in_range cs pos2 H2) as [_ [v2 Hv2]].
  rewrite (check_match_accepted s pos1 pos2 v1 v2 H1 H2 Hm1 Hm2 Hv1 Hv2).
  destruct Hs as (Hcards & Hnd & Hsub & Hin & Hev & Hval). fold cs ms in Hcards, Hin.
  assert (0 ≤ v1 < len (session_get (all_game_images s) [])) as Hv1r.
  { destruct Hcards as [Hnil|Hperm].
    - rewrite Hnil in H1. unfold len in H1. cbn in H1. lia.
    - apply list_elem_of_lookup_2 in Hv1. rewrite Hperm in Hv1.
      apply elem_of_app in Hv1. rewrite range_elem in Hv1. unfold len. tauto. }
  destruct (v1 =? v2); cbn.
  - unfold session_inv. cbn.
    split; [done|]. split; [done|]. split; [done|]. split; [|split].
    + intros p [Hp|Hp]%elem_of_app; [by apply Hin|].
      apply elem_of_cons in Hp as [->|Hp]; [done|].
      by apply list_elem_of_singleton in Hp as ->.
    + destruct Hev as [n Hn]. exists (S n). rewrite length_app. fold ms.
      unfold ms in *. cbn. lia.
    + intros v Hv. destruct (session_get (current_player s) 1 =? 1); cbn in Hv.
      * rewrite <- app_assoc in Hv.
        apply elem_of_app in Hv as [Hv|Hv];
          [apply Hval; apply elem_of_app; by left|].
        apply elem_of_cons in Hv as [->|Hv]; [done|].
        apply Hval. apply elem_of_app. by right.
      * rewrite app_assoc in Hv. apply elem_of_app in Hv as [Hv|Hv];
          [by apply Hval|].
        by apply list_elem_of_singleton in Hv as ->.
  - unfold session_inv. cbn. done.
Qed.

Lemma save_crop_inv (w : world) filename crop_box :
  session_inv (sess w) → session_inv (sess (save_crop w filename crop_box).1).
Proof.
  intros Hs. unfold save_crop.
  destruct filename as [filename|], crop_box as [crop_box|]; try done.
  destruct (_ || _); [done|].
  destruct (get_safe_image_path _ _); [|done].
  destruct (save_cropped_image _ _ _) as [temp fs].
  destruct (bool_decide _); [done|].
  destruct (pending_crops (sess w)) as [queue|] eqn:Hq; [|done].
  destruct (py_remove filename queue) as [pending|] eqn:Hrm; [|done].
  apply py_remove_sublist in Hrm as [Hsub _].
  assert (session_inv
            (Session (all_game_images (sess w)) (Some pending) (cards (sess w))
               (matched (sess w)) (current_player (sess w))
               (player1_matches (sess w)) (player2_matches (sess w)))) as Hs'.
  { destruct Hs as (Hc & Hnd & Hp & Hrest). rewrite Hq in Hp. cbn in Hp.
    split; [done|]. split; [done|]. split; [|done]. cbn.
    by etrans. }
  destruct pending as [|next rest]; [|exact Hs'].
  by apply (deal_inv (World _ fs (gen w))).
Qed.

Lemma init_inv (w : world) :
  session_inv (sess w) → session_inv (sess (init w).1).
Proof.
  intros Hs. unfold init.
  assert (∀ w1, session_inv (sess w1) →
            session_inv (sess
              (match session_get (pending_crops (sess w1)) [] with
               | p :: rest =>
                   (w1, Returned (Json (InitPending p (len (p :: rest)))))
               | [] =>
                   (deal w1,
                    Returned (Json (InitOk BOARD_WIDTH BOARD_HEIGHT
                      (session_get (all_game_images (sess (deal w1))) [])
                      (len (session_get (all_game_images (sess (deal w1))) [])))))
               end).1)) as Hfin.
  { intros w1 Hs1. destruct (session_get _ _); [by apply deal_inv|done]. }
  destruct (all_game_images (sess w)) as [imgs|] eqn:Himg.
  - apply (Hfin (World _ (disk w) (gen w))).
    destruct Hs as (_ & Hnd & Hp & _). rewrite Himg in Hnd, Hp.
    cbn in Hnd, Hp. fresh_session_inv.
  - pose proof (init_game_state_inv w Hs) as Hi.
    destruct (init_game_state w) as [w1 [[]|e]]; [|done]. by apply Hfin.
Qed.

Lemma get_board_inv (w : world) :
  session_inv (sess w) → session_inv (sess (get_board w).1).
Proof.
  intros Hs.
  assert (∀ w1, session_inv (sess w1) →
            session_inv (sess (match session_get (cards (sess w1)) [] with
                               | [] => deal w1 | _ :: _ => w1 end))) as Hdeal.
  { intros w1 Hs1. destruct (session_get _ _); [by apply deal_inv|done]. }
  assert (session_inv (sess (get_board_try w).1)) as Htry.
  { unfold get_board_try.
    destruct (all_game_images (sess w)) as [imgs|] eqn:Himg.
    - specialize (Hdeal w Hs). repeat (case_match; try done).
    - pose proof (init_game_state_inv w Hs) as Hi.
      destruct (init_game_state w) as [w1 [[]|e]]; [|done].
      specialize (Hdeal w1 Hi). repeat (case_match; try done). }
  unfold get_board. by destruct (get_board_try w) as [w' [r|e]].
Qed.

Lemma index_inv (w : world) :
  session_inv (sess w) → session_inv (sess (index w).1).
Proof.
  intros Hs. unfold index. destruct (cards (sess w)); [done|].
  pose proof (init_game_state_inv w Hs) as Hi.
  by destruct (init_game_state w) as [w' [r|e]].
Qed.

Lemma reachable_inv (w : world) : reachable w → session_inv (sess w).
Proof.
  induction 1 as [fs g|w r Hw IH]; [apply session_inv_cleared|].
  destruct r; cbn [handle].
  - by apply index_inv.
  - by apply save_crop_inv.
  - by apply init_inv.
  - by apply get_board_inv.
  - unfold check. pose proof (check_match_inv (sess w) card1 card2 IH).
    by destruct (check_match (sess w) card1 card2).
  - apply session_inv_cleared.
Qed.

End Invariant.

Section Reachable.
Context `{Platform}.

(** X18. In every reachable world [cards] is empty or holds the pairs of
    the selected images: a permutation of [0..k-1, 0..k-1] for the [k]
    names in [all_game_images]. *)
Theorem reachable_cards_are_pairs (w : world) :
  reachable w →
  let k := length (session_get (all_game_images (sess w)) []) in
  session_get (cards (sess w)) [] = []
  ∨ session_get (cards (sess w)) [] ≡ₚ range k ++ range k.
Proof. intros Hw. by destruct (reachable_inv w Hw) as (Hc & _). Qed.

(** X19. In every reachable world the selected names are distinct and
    [pending_crops] lists some of them, in the order of selection. *)
Theorem reachable_pending_among_selected (w : world) :
  reachable w →
  NoDup (session_get (all_game_images (sess w)) []) ∧
  session_get (pending_crops (sess w)) []
    `sublist_of` session_get (all_game_images (sess w)) [].
Proof. intros Hw. by destruct (reachable_inv w Hw) as (_ & Hnd & Hp & _). Qed.

(** X20. In every reachable world [matched] holds an even number of
    positions, all of them positions of [cards], and the values credited
    to the two players are indices of [all_game_images]. *)
Theorem reachable_matched_in_range (w : world) :
  reachable w →
  Nat.Even (length (session_get (matched (sess w)) [])) ∧
  (∀ p, p ∈ session_get (matched (sess w)) [] →
        0 ≤ p < len (session_get (cards (sess w)) [])) ∧
  (∀ v, v ∈ session_get (player1_matches (sess w)) []
            ++ session_get (player2_matches (sess w)) [] →
        0 ≤ v < len (session_get (all_game_images (sess w)) [])).
Proof.
  intros Hw. by destruct (reachable_inv w Hw) as (_ & _ & _ & Hm & He & Hv).
Qed.

(** X21. In every reachable world the session has none of its seven keys
    or all of them, and then [current_player] is 1 or 2. *)
Theorem reachable_session_keys (w : world) :
  reachable w →
  sess w = cleared ∨
  (is_Some (all_game_images (sess w)) ∧ is_Some (pending_crops (sess w)) ∧
   is_Some (cards (sess w)) ∧ is_Some (matched (sess w)) ∧
   (current_player (sess w) = Some 1 ∨ current_player (sess w) = Some 2) ∧
   is_Some (player1_matches (sess w)) ∧ is_Some (player2_matches (sess w))).
Proof. apply reachable_shape. Qed.

End Reachable.

Lemma reachable_started_world : @reachable demo_platform started_world.
Proof. apply (@reachable_step demo_platform _ PostInit), reachable_start. Qed.

Lemma reachable_cards_are_pairs_witness :
  session_get (cards (sess started_world)) [] = []
  ∨ session_get (cards (sess started_world)) []
    ≡ₚ range (length (session_get (all_game_images (sess started_world)) []))
       ++ range (length (session_get (all_game_images (sess started_world)) [])).
Proof.
  apply (@reachable_cards_are_pairs demo_platform started_world).
  exact reachable_started_world.
Defined.

Lemma reachable_pending_among_selected_witness :
  NoDup (session_get (all_game_images (sess started_world)) []) ∧
  session_get (pending_crops (sess started_world)) []
    `sublist_of` session_get (all_game_images (sess started_world)) [].
Proof.
  apply (@reachable_pending_among_selected demo_platform started_world).
  exact reachable_started_world.
Defined.

Lemma reachable_matched_in_range_witness :
  Nat.Even (length (session_get (matched (sess started_world)) [])).
Proof.
  apply (@reachable_matched_in_range demo_platform started_world).
  exact reachable_started_world.
Defined.

Lemma reachable_session_keys_witness :
  sess started_world = cleared ∨
  (is_Some (all_game_images (sess started_world)) ∧
   is_Some (pending_crops (sess started_world)) ∧
   is_Some (cards (sess started_world)) ∧
   is_Some (matched (sess started_world)) ∧
   (current_player (sess started_world) = Some 1
    ∨ current_player (sess started_world) = Some 2) ∧
   is_Some (player1_matches (sess started_world)) ∧
   is_Some (player2_matches (sess started_world))).
Proof.
  apply (@reachable_session_keys demo_platform started_world).
  exact reachable_started_world.
Defined.

(** ** The handlers *)

Section Handlers.
Context `{Platform}.

Implicit Types fs : gmap path node.

(** X22. A request without a filename or without a crop box, or with an
    empty one, is answered with 400 "Missing data" and changes nothing. *)
Theorem save_crop_missing_data (w : world) (filename : option string)
    (crop_box : option (gmap string Z)) :
  filename = None ∨ filename = Some "" ∨ crop_box = None ∨ crop_box = Some ∅ →
  save_crop w filename crop_box = (w, Returned (JsonError "Missing data" 400)).
Proof.
  unfold save_crop. intros [-> | [-> | [-> | ->]]].
  - done.
  - by destruct crop_box.
  - by destruct filename.
  - destruct filename as [filename|]; [|done].
    by rewrite (bool_decide_eq_true_2 (∅ = ∅)), orb_true_r.
Qed.

(** X23. A crop that succeeds for a pending filename takes that filename,
    and nothing else, out of the queue, keeping the order of the others.
    While names remain the answer names the first of them and the rest of
    the session is untouched; when none remains the answer is [ok] and the
    board is dealt: [cards] holds the pairs, [matched] is empty. The
    selected names, the player to move and both match lists stay as they
    were either way. *)
Theorem save_crop_advances_queue (w : world) (filename : string)
    (crop_box : gmap string Z) (square : string) fs (queue : list string) :
  filename ≠ "" → crop_box ≠ ∅ →
  save_cropped_image (disk w) filename crop_box = (Some square, fs) →
  pending_crops (sess w) = Some queue → filename ∈ queue →
  ∃ rest w' r,
    save_crop w (Some filename) (Some crop_box) = (w', Returned (Json r)) ∧
    py_remove filename queue = Some rest ∧
    queue ≡ₚ filename :: rest ∧ rest `sublist_of` queue ∧
    pending_crops (sess w') = Some rest ∧ disk w' = fs ∧
    all_game_images (sess w') = all_game_images (sess w) ∧
    current_player (sess w') = current_player (sess w) ∧
    player1_matches (sess w') = player1_matches (sess w) ∧
    player2_matches (sess w') = player2_matches (sess w) ∧
    match rest with
    | next_image :: _ =>
        r = CropPending next_image ∧ cards (sess w') = cards (sess w) ∧
        matched (sess w') = matched (sess w) ∧ gen w' = gen w
    | [] =>
        r = CropOk ∧ matched (sess w') = Some [] ∧
        ∃ cs, cards (sess w') = Some cs ∧
              let k := length (session_get (all_game_images (sess w)) []) in
              cs ≡ₚ range k ++ range k
    end.
Proof.
  intros Hf Hb Hsave Hq Hin.
  destruct (py_remove_elem filename queue Hin) as [rest Hrm].
  destruct (py_remove_sublist filename queue rest Hrm) as [Hsub Hperm].
  pose proof (save_cropped_image_Some _ _ _ _ _ Hsave)
    as (p & ? & ? & ? & ? & ? & ? & ? & Hp & _ & _ & _ & _ & _ & _ & _
        & Hname & _).
  assert (square ≠ "") as Hsq.
  { rewrite Hname. clear Hname. intros Hc. by destruct (stem p). }
  unfold save_crop.
  rewrite (bool_decide_eq_false_2 _ Hf), (bool_decide_eq_false_2 _ Hb). cbn [orb].
  rewrite Hp, Hsave, Hq, Hrm.
  rewrite bool_decide_eq_false_2 by (intros [?|?]; congruence).
  exists rest. destruct rest as [|next rest'].
  - eexists _, _. split; [done|].
    set (w2 := World _ fs (gen w)).
    destruct (deal_frame w2) as [Hs Hd].
    pose proof (setup_card_pairs_frame (sess w2) (gen w2))
      as (Ha & Hpc & _ & Hm & Hcp & Hp1 & Hp2).
    rewrite <- Hs in Ha, Hpc, Hm, Hcp, Hp1, Hp2.
    do 9 (split; [done|]). split; [done|]. split; [done|].
    rewrite Hs. unfold setup_card_pairs.
    pose proof (shuffle_Permutation
                  (range (length (session_get (all_game_images (sess w2)) []))
                   ++ range (length (session_get (all_game_images (sess w2)) [])))
                  (gen w2)) as Hsh.
    destruct (shuffle _ (gen w2)) as [cs g']. by exists cs.
  - eexists _, _. split; [done|]. done.
Qed.

(** X24. Whenever [init] returns, the play state is fresh: [matched] and
    both match lists are empty and player 1 is to move. With crops pending
    the answer names the first pending image and how many there are, and
    no board is dealt; with none pending the answer is [ok] with the
    selected names and their number, and [cards] holds the pairs. *)
Theorem init_resets_play_state (w w' : world) (r : response init_body) :
  init w = (w', Returned r) →
  let images := session_get (all_game_images (sess w')) [] in
  matched (sess w') = Some [] ∧ current_player (sess w') = Some 1 ∧
  player1_matches (sess w') = Some [] ∧ player2_matches (sess w') = Some [] ∧
  match session_get (pending_crops (sess w')) [] with
  | p :: rest =>
      r = Json (InitPending p (len (p :: rest))) ∧ cards (sess w') = Some []
  | [] =>
      r = Json (InitOk BOARD_WIDTH BOARD_HEIGHT images (len images)) ∧
      ∃ cs, cards (sess w') = Some cs
            ∧ cs ≡ₚ range (length images) ++ range (length images)
  end.
Proof.
  assert (∀ w1 : world,
            matched (sess w1) = Some [] → current_player (sess w1) = Some 1 →
            player1_matches (sess w1) = Some [] →
            player2_matches (sess w1) = Some [] → cards (sess w1) = Some [] →
            (match session_get (pending_crops (sess w1)) [] with
             | p :: rest =>
                 (w1, Returned (Json (InitPending p (len (p :: rest)))))
             | [] =>
                 (deal w1,
                  Returned (Json (InitOk BOARD_WIDTH BOARD_HEIGHT
                    (session_get (all_game_images (sess (deal w1))) [])
                    (len (session_get (all_game_images (sess (deal w1))) [])))))
             end) = (w', Returned r) →
            let images := session_get (all_game_images (sess w')) [] in
            matched (sess w') = Some [] ∧ current_player (sess w') = Some 1 ∧
            player1_matches (sess w') = Some [] ∧
            player2_matches (sess w') = Some [] ∧
            match session_get (pending_crops (sess w')) [] with
            | p :: rest =>
                r = Json (InitPending p (len (p :: rest)))
                ∧ cards (sess w') = Some []
            | [] =>
                r = Json (InitOk BOARD_WIDTH BOARD_HEIGHT images (len images)) ∧
                ∃ cs, cards (sess w') = Some cs
                      ∧ cs ≡ₚ range (length images) ++ range (length images)
            end) as Hfin.
  { intros w1 Hm Hcp Hp1 Hp2 Hc E.
    destruct (session_get (pending_crops (sess w1)) []) as [|p rest] eqn:Hq.
    - injection E as <- <-. cbn zeta.
      destruct (deal_frame w1) as [Hs _].
      pose proof (setup_card_pairs_frame (sess w1) (gen w1))
        as (Ha & Hpc & _ & Hm' & Hcp' & Hp1' & Hp2').
      rewrite <- Hs in Ha, Hpc, Hm', Hcp', Hp1', Hp2'.
      rewrite Hm', Hcp', Hp1', Hp2', Hpc, Hq, Hcp, Hp1, Hp2, Ha.
      do 5 (split; [done|]). rewrite Hs. unfold setup_card_pairs.
      pose proof (shuffle_Permutation
                    (range (length (session_get (all_game_images (sess w1)) []))
                     ++ range (length (session_get (all_game_images (sess w1)) [])))
                    (gen w1)) as Hsh.
      destruct (shuffle _ (gen w1)) as [cs g']. by exists cs.
    - injection E as <- <-. cbn zeta. by rewrite Hq. }
  unfold init. destruct (all_game_images (sess w)) as [imgs|].
  - by apply Hfin.
  - destruct (init_game_state_cases w) as [(g & e & ->)|(sel & p & fs & g & ->)];
      [done|]. by apply Hfin.
Qed.

(** X25. On a reachable world with selected images and a dealt board,
    [get_board] changes nothing and reports the session as it is: the
    cards, the matched positions, the player to move, the number of pairs
    of each player and the selected names. *)
Theorem get_board_reads_the_session (w : world) (i : string)
    (imgs : list string) (c : Z) (cs : list Z) :
  reachable w →
  all_game_images (sess w) = Some (i :: imgs) →
  cards (sess w) = Some (c :: cs) →
  ∃ m p p1 p2,
    matched (sess w) = Some m ∧ current_player (sess w) = Some p ∧
    player1_matches (sess w) = Some p1 ∧ player2_matches (sess w) = Some p2 ∧
    get_board w
    = (w, Returned (Json (BoardBody (c :: cs) m p (len p1) (len p2) (i :: imgs)))).
Proof.
  intros Hw Himg Hcards.
  destruct (reachable_shape w Hw)
    as [Hs|(_ & _ & _ & [m Hm] & Hcp & [p1 Hp1] & [p2 Hp2])].
  { rewrite Hs in Himg. discriminate Himg. }
  assert (∃ p, current_player (sess w) = Some p) as [p Hp]
    by (destruct Hcp; eauto).
  exists m, p, p1, p2. repeat (split; [done|]).
  unfold get_board, get_board_try. rewrite Himg. cbn.
  rewrite Hcards. cbn. rewrite ?Himg, ?Hcards. cbn.
  by rewrite Hm, Hp, Hp1, Hp2.
Qed.

#[local] Instance str_le_total : Total str_le.
Proof. intros a b. apply String.leb_total. Qed.

(** X26. [get_all_images] returns the names of the listed image files in
    ascending order, each name once. *)
Theorem get_all_images_sorted fs (files : list path) :
  _get_image_files fs = Returned files →
  ∃ names,
    get_all_images fs = Returned names ∧
    Sorted str_le names ∧ names ≡ₚ name <$> files ∧ NoDup names.
Proof.
  intros Hfiles. unfold get_all_images, sorted. rewrite Hfiles.
  eexists. split; [done|]. split; [apply Sorted_merge_sort, _|].
  split; [apply merge_sort_Permutation|].
  rewrite merge_sort_Permutation.
  exact (image_files_names_NoDup fs files Hfiles).
Qed.

Lemma write_file_grows fs (p : path) (b : bytes) fs' :
  write_file fs p b = Some fs' → disk_grows fs fs'.
Proof.
  intros (Hw & Hnd & Hpar & ->)%write_file_Some k.
  destruct (decide (resolve p = k)) as [<-|Hne].
  - rewrite lookup_insert_eq. split; [eauto|congruence].
  - by rewrite lookup_insert_ne.
Qed.

Lemma mkdir_grows fs (d : path) fs' :
  mkdir_exist_ok fs d = Some fs' → disk_grows fs fs'.
Proof.
  intros Hsub%mkdir_subseteq k. split.
  - intros [n Hn]. exists n. by eapply lookup_weaken.
  - intros Hd. by eapply lookup_weaken.
Qed.

Lemma disk_grows_refl fs : disk_grows fs fs.
Proof. by intros k. Qed.

(** [img.save] takes nothing away either, returned or not: a target it
    made and could not fill is removed again, one that was there stays. *)
Lemma image_save_grows fs (img : image) (p : path) :
  disk_grows fs (image_save fs img p).2.
Proof.
  destruct (image_save fs img p) as [[|] fs'] eqn:Hs; cbn [snd].
  - apply image_save_true in Hs as (b & _ & Hw). by eapply write_file_grows.
  - apply image_save_false in Hs as [->|[_ Hw]]; [apply disk_grows_refl|].
    by eapply write_file_grows.
Qed.

Lemma disk_grows_trans fs1 fs2 fs3 :
  disk_grows fs1 fs2 → disk_grows fs2 fs3 → disk_grows fs1 fs3.
Proof.
  intros H12 H23 k. destruct (H12 k) as [Ha Hb], (H23 k) as [Hc Hd]. split; auto.
Qed.

Lemma copy_square_image_grows fs (filename : string) :
  disk_grows fs (copy_square_image fs filename).2.
Proof.
  unfold copy_square_image.
  destruct (get_safe_image_path fs filename) as [p|]; [|apply disk_grows_refl].
  destruct (mkdir_exist_ok fs _) as [fs1|] eqn:Hmk; [|apply disk_grows_refl].
  pose proof (mkdir_grows _ _ _ Hmk) as H1.
  case_bool_decide.
  - unfold copy2. case_bool_decide; [done|].
    destruct (read_file fs1 p) as [src|]; cbn [mbind option_bind]; [|done].
    destruct (write_file fs1 _ src) as [fs2|] eqn:Hw; [|done].
    eapply disk_grows_trans; [done|]. by eapply write_file_grows.
  - destruct (_load_and_rotate fs1 p) as [img|]; [|done].
    pose proof (image_save_grows fs1 img
                  (joinpath (joinpath (parent p) "squared")
                     (stem p +:+ "_square.jpg"))) as H2.
    destruct (image_save fs1 img _) as [[|] fs2]; by eapply disk_grows_trans.
Qed.

Lemma save_cropped_image_grows fs (filename : string) (crop_box : gmap string Z) :
  disk_grows fs (save_cropped_image fs filename crop_box).2.
Proof.
  unfold save_cropped_image.
  destruct (get_safe_image_path fs filename) as [p|]; [|apply disk_grows_refl].
  destruct (_load_and_rotate fs p) as [img|]; [|apply disk_grows_refl].
  destruct (crop_box !! "x") as [x|]; [|apply disk_grows_refl].
  destruct (crop_box !! "y") as [y|]; [|apply disk_grows_refl].
  destruct (crop_box !! "size") as [size|]; [|apply disk_grows_refl].
  destruct (image_crop img x y (x + size) (y + size)) as [cropped|];
    [|apply disk_grows_refl].
  destruct (mkdir_exist_ok fs _) as [fs1|] eqn:Hmk; [|apply disk_grows_refl].
  pose proof (mkdir_grows _ _ _ Hmk) as H1.
  pose proof (image_save_grows fs1 cropped
                (joinpath (joinpath (parent p) "squared")
                   (stem p +:+ "_square.jpg"))) as H2.
  destruct (image_save fs1 cropped _) as [[|] fs2]; by eapply disk_grows_trans.
Qed.

Lemma scan_selected_grows fs (selected pending : list string) :
  disk_grows fs (scan_selected fs selected pending).2.
Proof.
  revert fs pending. induction selected as [|img rest IH]; intros fs pending;
    [apply disk_grows_refl|].
  cbn [scan_selected]. destruct (negb _); [|apply IH].
  destruct (is_square_image fs img); [|apply IH].
  eapply disk_grows_trans; [apply copy_square_image_grows | apply IH].
Qed.

Lemma init_game_state_grows (w : world) :
  disk_grows (disk w) (disk (init_game_state w).1).
Proof.
  unfold init_game_state.
  destruct (_get_k_random_images _ _ _) as [[sel|e] g]; [|apply disk_grows_refl].
  pose proof (scan_selected_grows (disk w) sel []) as Hg.
  by destruct (scan_selected (disk w) sel []) as [pending fs].
Qed.

(** X27. No request deletes anything: whatever path is on disk before a
    request is on disk after it, and a directory is still a directory.
    (The requests only ever add the [squared] folder and write
    derivatives.) *)
Theorem requests_never_delete (w : world) (r : request) (k : path) :
  (is_Some (disk w !! k) → is_Some (disk (handle w r) !! k)) ∧
  (disk w !! k = Some Dir → disk (handle w r) !! k = Some Dir).
Proof.
  revert k. change (disk_grows (disk w) (disk (handle w r))).
  assert (∀ w1, disk (deal w1) = disk w1) as Hdeal
    by (intros w1; apply deal_frame).
  destruct r; cbn [handle].
  - unfold index. destruct (cards (sess w)); [apply disk_grows_refl|].
    pose proof (init_game_state_grows w) as Hg.
    by destruct (init_game_state w) as [w' [u|e]].
  - unfold save_crop.
    destruct filename as [filename|], crop_box as [crop_box|];
      try apply disk_grows_refl.
    destruct (_ || _); [apply disk_grows_refl|].
    destruct (get_safe_image_path _ _); [|apply disk_grows_refl].
    pose proof (save_cropped_image_grows (disk w) filename crop_box) as Hg.
    destruct (save_cropped_image _ _ _) as [temp fs].
    destruct (bool_decide _); [done|].
    destruct (pending_crops (sess w)) as [queue|]; [|done].
    destruct (py_remove filename queue) as [[|next rest]|]; try done.
    cbn [fst]. by rewrite Hdeal.
  - unfold init. destruct (all_game_images (sess w)).
    + cbn. destruct (default [] (pending_crops (sess w))); cbn;
        [rewrite Hdeal|]; apply disk_grows_refl.
    + pose proof (init_game_state_grows w) as Hg.
      destruct (init_game_state w) as [w1 [u|e]]; [|done].
      destruct (session_get (pending_crops (sess w1)) []); cbn [fst];
        [by rewrite Hdeal|done].
  - assert (disk_grows (disk w) (disk (get_board_try w).1)) as Htry.
    { unfold get_board_try.
      assert (∀ w1, disk (match session_get (cards (sess w1)) [] with
                          | [] => deal w1 | _ :: _ => w1 end) = disk w1) as Hd.
      { intros w1. destruct (session_get _ _); [apply Hdeal|done]. }
      destruct (all_game_images (sess w)).
      - specialize (Hd w). repeat (case_match; try done);
          cbn [fst]; rewrite Hd; apply disk_grows_refl.
      - pose proof (init_game_state_grows w) as Hg.
        destruct (init_game_state w) as [w1 [u|e]]; [|done].
        specialize (Hd w1). repeat (case_match; try done);
          cbn [fst]; by rewrite Hd. }
    unfold get_board. by destruct (get_board_try w) as [w' [u|e]].
  - unfold check. destruct (check_match (sess w) card1 card2).
    apply disk_grows_refl.
  - apply disk_grows_refl.
Qed.

End Handlers.

Lemma save_crop_missing_data_witness :
  @save_crop demo_platform started_world (Some "") (Some demo_box)
  = (started_world, Returned (JsonError "Missing data" 400)).
Proof.
  apply (@save_crop_missing_data demo_platform started_world).
  right. left. reflexivity.
Defined.

Lemma save_crop_advances_queue_witness :
  ∃ rest,
    py_remove "b.png" ["a.jpg"; "b.png"] = Some rest
    ∧ ["a.jpg"; "b.png"] ≡ₚ "b.png" :: rest.
Proof.
  destruct (@save_crop_advances_queue demo_platform
              (World (Session (Some ["a.jpg"; "b.png"]) (Some ["a.jpg"; "b.png"])
                        (Some []) (Some []) (Some 1) (Some []) (Some []))
                 demo_disk zero_rng)
              "b.png" demo_box "b_square.jpg"
              (@save_cropped_image demo_platform demo_disk "b.png" demo_box).2
              ["a.jpg"; "b.png"])
    as (rest & w' & r & _ & Hrm & Hperm & _).
  - intros Hc. discriminate Hc.
  - intros Hc. apply (f_equal (λ m : gmap string Z, m !! "x")) in Hc.
    vm_compute in Hc. discriminate Hc.
  - cbn [disk].
    rewrite (surjective_pairing (@save_cropped_image demo_platform demo_disk
                                    "b.png" demo_box)) at 1.
    f_equal; vm_compute; reflexivity.
  - reflexivity.
  - apply list_elem_of_In. right. left. reflexivity.
  - exists rest. split; [exact Hrm | exact Hperm].
Defined.

Lemma init_resets_play_state_witness :
  matched (sess started_world) = Some []
  ∧ current_player (sess started_world) = Some 1.
Proof.
  destruct (@init_resets_play_state demo_platform
              (World cleared demo_disk zero_rng) started_world
              (Json (InitPending "b.png" 1))) as (Hm & Hcp & _).
  - unfold started_world.
    rewrite (surjective_pairing (@init demo_platform
                                    (World cleared demo_disk zero_rng))) at 1.
    f_equal; vm_compute; reflexivity.
  - split; [exact Hm | exact Hcp].
Defined.

Lemma reachable_cropped_world : @reachable demo_platform cropped_world.
Proof.
  apply (@reachable_step demo_platform started_world
           (PostCrop (Some "b.png") (Some demo_box))).
  exact reachable_started_world.
Qed.

Lemma get_board_reads_the_session_witness :
  ∃ m p p1 p2,
    matched (sess cropped_world) = Some m ∧
    current_player (sess cropped_world) = Some p ∧
    player1_matches (sess cropped_world) = Some p1 ∧
    player2_matches (sess cropped_world) = Some p2 ∧
    @get_board demo_platform cropped_world
    = (cropped_world,
       Returned (Json (BoardBody (1 :: [0; 1; 0]) m p (len p1) (len p2)
                         ("a.jpg" :: ["b.png"])))).
Proof.
  apply (@get_board_reads_the_session demo_platform cropped_world).
  - exact reachable_cropped_world.
  - vm_compute. reflexivity.
  - vm_compute. reflexivity.
Defined.

Lemma get_all_images_sorted_witness :
  ∃ names,
    @get_all_images demo_platform demo_disk = Returned names ∧
    Sorted str_le names ∧
    names ≡ₚ name <$> [["app"; "img"; "a.jpg"]; ["app"; "img"; "b.png"]] ∧
    NoDup names.
Proof.
  apply (@get_all_images_sorted demo_platform demo_disk).
  vm_compute. reflexivity.
Defined.

(** ** The end of a game, and its start *)

(** X28. A finished board is frozen: with [matched] a set of positions
    and as many of them as there are cards, every further call of
    [check_match] is refused with status 400 and changes nothing. *)
Theorem finished_board_refuses_every_call (s : session) (pos1 pos2 : Z) :
  matched_set s →
  len (session_get (matched s) []) = len (session_get (cards s) []) →
  ∃ msg, check_match s pos1 pos2 = (s, Returned (JsonError msg 400)).
Proof.
  intros [Hnd Hin] Hlen. apply check_match_refused.
  intros (H1 & _ & Hout & _). apply Hout.
  assert (session_get (matched s) []
          ≡ₚ range (length (session_get (cards s) []))) as Hperm.
  { apply submseteq_length_Permutation.
    - apply NoDup_submseteq; [done|]. intros q Hq. by apply range_elem, Hin.
    - rewrite range_length. unfold len in Hlen. lia. }
  rewrite Hperm. by apply range_elem.
Qed.

Lemma finished_board_refuses_every_call_witness :
  ∃ msg,
    check_match (run_checks dealt_session [(0, 2); (1, 3)]) 0 1
    = (run_checks dealt_session [(0, 2); (1, 3)],
       Returned (JsonError msg 400)).
Proof.
  apply finished_board_refuses_every_call.
  - apply run_checks_matched_set; [exact matched_set_dealt|].
    repeat (apply Forall_cons; split; [cbn; intros Hc; discriminate Hc|]).
    apply Forall_nil_2.
  - vm_compute. reflexivity.
Defined.

Section Start.
Context `{Platform}.

Implicit Types fs : gmap path node.




End Start.

